(** * Memo-tracking service: the metrics subsystem of app/app.js

    The service is one Express application (app/app.js; the unnamed source
    part is an earlier revision of the same file with the same middleware,
    refresher and start-up code).  The development has three layers:

    - [Metrics]: the Counter, Gauge and Histogram instruments.  The
      application obtains them from the prom-client package, which is not
      part of the repository, so they are modelled from the specification.
    - [App]: the application itself.  Node's event loop is a transition
      system: a state record holds the module-level variables, the
      instruments, the console, the pending driver promises together with
      the continuation of the async function awaiting each of them, the
      armed timers and the HTTP exchanges; every event (a promise settles, a
      timer fires, a request arrives, is routed, finishes) runs one callback
      to completion.
    - the theorems, one group per property of the specification. *)

From Stdlib Require Import ZArith QArith Lqa List String Lia.
From stdpp Require Import base option list gmap strings pretty.

Local Open Scope string_scope.

(** ** Instruments *)

Module Metrics.

(** A label set maps label names to string values; two label sets with the
    same pairs denote the same series, whatever the order they were written
    in. *)
Abbreviation LabelSet := (gmap string string).

(** The error taxonomy of the instruments. *)
Inductive MetricError :=
| DuplicateNameError
| NegativeDeltaError.

(** The value of a Counter or Gauge series; a series that was never touched
    reads as zero. *)
Definition series_value (m : gmap LabelSet Q) (ls : LabelSet) : Q :=
  default 0%Q (m !! ls).

(** Modelled from the spec: the Counter instrument of the metrics library
    (the repository only holds its callers).  [increment ls delta] fails
    with [NegativeDeltaError] when [delta < 0] and otherwise adds [delta] to
    the series; the result pairs the state after the call with the error, so
    that a failed call exposes the state it leaves behind. *)
Definition increment (ls : LabelSet) (delta : Q) (c : gmap LabelSet Q)
  : gmap LabelSet Q * option MetricError :=
  if Qle_bool 0 delta
  then (<[ls := (series_value c ls + delta)%Q]> c, None)
  else (c, Some NegativeDeltaError).

(** A sequence of [increment] calls on one counter; failed calls are
    rejected and the sequence goes on. *)
Fixpoint increments (calls : list (LabelSet * Q)) (c : gmap LabelSet Q)
  : gmap LabelSet Q :=
  match calls with
  | [] => c
  | (ls, delta) :: rest => increments rest (fst (increment ls delta c))
  end.

(** Modelled from the spec: the Gauge instrument of the metrics library.
    [set] overwrites the series unconditionally. *)
Definition set (ls : LabelSet) (value : Q) (g : gmap LabelSet Q)
  : gmap LabelSet Q :=
  <[ls := value]> g.

(** One Histogram series: the finite bucket boundaries with their
    cumulative counts, the implicit +Inf bucket, the running sum and the
    running count. *)
Record HistogramSeries := {
  buckets : list (Q * nat);
  bucket_inf : nat;
  h_sum : Q;
  h_count : nat
}.

(** A Histogram: the boundaries fixed at registration and the series seen
    so far. *)
Record Histogram := {
  boundaries : list Q;
  h_series : gmap LabelSet HistogramSeries
}.

Definition empty_series (bounds : list Q) : HistogramSeries :=
  {| buckets := map (fun b => (b, 0)) bounds;
     bucket_inf := 0;
     h_sum := 0%Q;
     h_count := 0 |}.

Definition new_histogram (bounds : list Q) : Histogram :=
  {| boundaries := bounds; h_series := ∅ |}.

(** A series is created lazily, the first time its label set is observed. *)
Definition series_of (h : Histogram) (ls : LabelSet) : HistogramSeries :=
  default (empty_series (boundaries h)) (h_series h !! ls).

(** The bucket with boundary [b] takes the observation [v] when [v <= b]. *)
Definition bump (v : Q) (bc : Q * nat) : Q * nat :=
  (fst bc, if Qle_bool v (fst bc) then S (snd bc) else snd bc).

Definition observe_series (v : Q) (s : HistogramSeries) : HistogramSeries :=
  {| buckets := map (bump v) (buckets s);
     bucket_inf := S (bucket_inf s);
     h_sum := (h_sum s + v)%Q;
     h_count := S (h_count s) |}.

(** Modelled from the spec: the Histogram instrument of the metrics library.
    [observe ls v] increments every bucket whose boundary is at least [v]
    (the +Inf bucket always), increments the count and adds [v] to the sum,
    all in one step. *)
Definition observe (ls : LabelSet) (v : Q) (h : Histogram) : Histogram :=
  {| boundaries := boundaries h;
     h_series := <[ls := observe_series v (series_of h ls)]> (h_series h) |}.

Definition observations (ls : LabelSet) (vs : list Q) (h : Histogram)
  : Histogram :=
  fold_left (fun acc v => observe ls v acc) vs h.

(** The cumulative counts of a series, finite buckets first. *)
Definition cumulative_counts (s : HistogramSeries) : list nat :=
  map snd (buckets s) ++ [bucket_inf s].

(** What an observation of [v] has to do to one finite bucket: the boundary
    stays, and the count goes up by one exactly when the boundary is at
    least [v]. *)
Definition bumped (v : Q) (before after : Q * nat) : Prop :=
  fst after = fst before
  ∧ ((v <= fst before)%Q ∧ snd after = S (snd before)
     ∨ ¬ (v <= fst before)%Q ∧ snd after = snd before).

End Metrics.

(** ** The application *)

Module App.
Import Metrics.

(** *** JavaScript values and errors *)

Inductive JsError :=
| TypeError (message : string)
| DriverError (message : string)
| InstrumentError (message : string).

(** How a statement list ends: normally with a value, or by throwing.  A
    throw keeps the mutations made before it. *)
Inductive Completion (A : Type) :=
| Normal (a : A)
| Throw (e : JsError).
Arguments Normal {A} a.
Arguments Throw {A} e.

(** An async function either ran to its end within the current callback or
    is parked on an [await]. *)
Inductive Status := Returned | Suspended.

(** Who holds the promise of an async call: the start-up chain
    [initializeDatabase().then(..).catch(..)], or nobody. *)
Inductive Caller := Main | Floating.

(** *** The database driver *)

(** [dbConfig]; the connection coordinates come from the environment and do
    not matter here. *)
Record Pool := {
  waitForConnections : bool;
  connectionLimit : Z;
  queueLimit : Z
}.

Definition dbConfig : Pool :=
  {| waitForConnections := true; connectionLimit := 10; queueLimit := 0 |}.

(** The statements the application sends, one constructor per SQL text. *)
Inductive Sql :=
| SqlCountSent                       (* COUNT( * ) of memos WHERE status = sent *)
| SqlCountToday                      (* COUNT( * ) of memos created today *)
| SqlCountActive                     (* COUNT( * ) of memos WHERE status = active *)
| SqlWeeklyTrend                     (* memos per day over the last 7 days *)
| SqlAllMemos                        (* memos joined with users and projects *)
| SqlAssignments (userId : string)   (* assignments WHERE assigned_to = ? *)
| SqlAccept (assignmentId : string)  (* UPDATE memo_assignments .. WHERE id = ? *)
| SqlNotifications (userId : string). (* notifications WHERE user_id = ? *)

Inductive DriverCall :=
| GetConnection        (* pool.getConnection() *)
| Ping                 (* connection.ping() *)
| Execute (q : Sql).   (* pool.execute(q, params) *)

(** What a driver promise is fulfilled with. *)
Inductive DbValue :=
| VConnection                  (* a pooled connection *)
| VPong                        (* the answer to a ping *)
| VCount (count : Z)           (* the single row of a COUNT( * ) as count query *)
| VRows (rows : list string)   (* the rows of another SELECT, as JSON text *)
| VResult (affectedRows : Z).  (* the result header of an UPDATE *)

Inductive Settled :=
| Fulfilled (v : DbValue)
| Rejected (e : JsError).

(** The driver answers each call with a value of the matching shape. *)
Definition answers (call : DriverCall) (v : DbValue) : bool :=
  match call, v with
  | GetConnection, VConnection => true
  | Ping, VPong => true
  | Execute SqlCountSent, VCount _ => true
  | Execute SqlCountToday, VCount _ => true
  | Execute SqlCountActive, VCount _ => true
  | Execute SqlWeeklyTrend, VRows _ => true
  | Execute SqlAllMemos, VRows _ => true
  | Execute (SqlAssignments _), VRows _ => true
  | Execute (SqlNotifications _), VRows _ => true
  | Execute (SqlAccept _), VResult _ => true
  | _, _ => false
  end.

Definition well_kinded (call : DriverCall) (r : Settled) : bool :=
  match r with
  | Fulfilled v => answers call v
  | Rejected _ => true
  end.

(** The memos table of init-db/init.sql, as far as the refresher reads it:
    status ENUM('draft', 'sent', 'archived'). *)
Inductive MemoStatus := draft | sent | archived.

Record Memo := {
  memo_id : Z;
  memo_status : MemoStatus
}.

Definition is_sent (m : Memo) : bool :=
  match memo_status m with
  | sent => true
  | _ => false
  end.

(** [SELECT COUNT( * ) as count FROM memos WHERE status = "sent"]. *)
Definition select_count_sent (memos : list Memo) : Z :=
  Z.of_nat (length (filter is_sent memos)).

(** *** Continuations, timers, HTTP exchanges *)

(** The code that follows each [await] of the application, with the local
    variables it still needs. *)
Inductive Frame :=
| KInitGetConnection (c : Caller)   (* initializeDatabase, after getConnection *)
| KInitPing (c : Caller)            (* initializeDatabase, after ping *)
| KUpdateMemoMetrics                (* updateMemoMetrics, after the COUNT *)
| KStatsToday (rid : nat)
| KStatsTotal (rid : nat) (todayMemos : DbValue)
| KStatsTrend (rid : nat) (todayMemos totalMemos : DbValue)
| KMemos (rid : nat)
| KAssignments (rid : nat)
| KAccept (rid : nat)
| KNotifications (rid : nat).

Inductive Callback :=
| CbInitializeDatabase
| CbUpdateMemoMetrics.

Inductive Timer :=
| Timeout (cb : Callback) (ms : Z)     (* setTimeout: fires once *)
| Interval (cb : Callback) (ms : Z).   (* setInterval: fires again and again *)

Inductive LogLine :=
| LogInfo (message : string)                   (* console.log *)
| LogError (message : string) (error : JsError). (* console.error *)

Inductive Body :=
| BRows (rows : DbValue)
| BStats (todayMemos totalMemos : Z) (weeklyTrend : DbValue)
| BMessage (message : string)
| BError (error : string)
| BOther.

(** One request with its response.  [req_route] is what the router left in
    [req.route]; [finish_listener] is the closure registered by the timing
    middleware, that is, its [start]; [res_body] is set once the response
    has been ended. *)
Record Exchange := {
  req_method : string;
  req_path : string;
  req_route : option string;
  finish_listener : option Z;
  res_statusCode : Z;
  res_body : option Body;
  res_finished : bool
}.

Inductive Halt :=
| Exit (code : Z)            (* process.exit(code) *)
| Uncaught (e : JsError).    (* an exception nobody caught *)

(** *** The state of the process *)

Record State := {
  pool : option Pool;
  httpRequestDuration : Histogram;
  dbConnectionsTotal : gmap LabelSet Q;
  memoOperationsTotal : gmap LabelSet Q;
  activeMemos : gmap LabelSet Q;
  console : list LogLine;
  pending : list (nat * (DriverCall * Frame));
  next_promise : nat;
  timers : list Timer;
  listening : bool;
  halted : option Halt;
  requests : gmap nat Exchange
}.

Definition with_pool (p : option Pool) (st : State) : State :=
  {| pool := p;
     httpRequestDuration := httpRequestDuration st;
     dbConnectionsTotal := dbConnectionsTotal st;
     memoOperationsTotal := memoOperationsTotal st;
     activeMemos := activeMemos st;
     console := console st;
     pending := pending st;
     next_promise := next_promise st;
     timers := timers st;
     listening := listening st;
     halted := halted st;
     requests := requests st |}.

Definition with_httpRequestDuration (h : Histogram) (st : State) : State :=
  {| pool := pool st;
     httpRequestDuration := h;
     dbConnectionsTotal := dbConnectionsTotal st;
     memoOperationsTotal := memoOperationsTotal st;
     activeMemos := activeMemos st;
     console := console st;
     pending := pending st;
     next_promise := next_promise st;
     timers := timers st;
     listening := listening st;
     halted := halted st;
     requests := requests st |}.

Definition with_dbConnectionsTotal (c : gmap LabelSet Q) (st : State) : State :=
  {| pool := pool st;
     httpRequestDuration := httpRequestDuration st;
     dbConnectionsTotal := c;
     memoOperationsTotal := memoOperationsTotal st;
     activeMemos := activeMemos st;
     console := console st;
     pending := pending st;
     next_promise := next_promise st;
     timers := timers st;
     listening := listening st;
     halted := halted st;
     requests := requests st |}.

Definition with_memoOperationsTotal (c : gmap LabelSet Q) (st : State) : State :=
  {| pool := pool st;
     httpRequestDuration := httpRequestDuration st;
     dbConnectionsTotal := dbConnectionsTotal st;
     memoOperationsTotal := c;
     activeMemos := activeMemos st;
     console := console st;
     pending := pending st;
     next_promise := next_promise st;
     timers := timers st;
     listening := listening st;
     halted := halted st;
     requests := requests st |}.

Definition with_activeMemos (g : gmap LabelSet Q) (st : State) : State :=
  {| pool := pool st;
     httpRequestDuration := httpRequestDuration st;
     dbConnectionsTotal := dbConnectionsTotal st;
     memoOperationsTotal := memoOperationsTotal st;
     activeMemos := g;
     console := console st;
     pending := pending st;
     next_promise := next_promise st;
     timers := timers st;
     listening := listening st;
     halted := halted st;
     requests := requests st |}.

Definition with_console (l : list LogLine) (st : State) : State :=
  {| pool := pool st;
     httpRequestDuration := httpRequestDuration st;
     dbConnectionsTotal := dbConnectionsTotal st;
     memoOperationsTotal := memoOperationsTotal st;
     activeMemos := activeMemos st;
     console := l;
     pending := pending st;
     next_promise := next_promise st;
     timers := timers st;
     listening := listening st;
     halted := halted st;
     requests := requests st |}.

Definition with_pending (l : list (nat * (DriverCall * Frame))) (n : nat)
    (st : State) : State :=
  {| pool := pool st;
     httpRequestDuration := httpRequestDuration st;
     dbConnectionsTotal := dbConnectionsTotal st;
     memoOperationsTotal := memoOperationsTotal st;
     activeMemos := activeMemos st;
     console := console st;
     pending := l;
     next_promise := n;
     timers := timers st;
     listening := listening st;
     halted := halted st;
     requests := requests st |}.

Definition with_timers (l : list Timer) (st : State) : State :=
  {| pool := pool st;
     httpRequestDuration := httpRequestDuration st;
     dbConnectionsTotal := dbConnectionsTotal st;
     memoOperationsTotal := memoOperationsTotal st;
     activeMemos := activeMemos st;
     console := console st;
     pending := pending st;
     next_promise := next_promise st;
     timers := l;
     listening := listening st;
     halted := halted st;
     requests := requests st |}.

Definition with_listening (b : bool) (st : State) : State :=
  {| pool := pool st;
     httpRequestDuration := httpRequestDuration st;
     dbConnectionsTotal := dbConnectionsTotal st;
     memoOperationsTotal := memoOperationsTotal st;
     activeMemos := activeMemos st;
     console := console st;
     pending := pending st;
     next_promise := next_promise st;
     timers := timers st;
     listening := b;
     halted := halted st;
     requests := requests st |}.

Definition with_halted (h : option Halt) (st : State) : State :=
  {| pool := pool st;
     httpRequestDuration := httpRequestDuration st;
     dbConnectionsTotal := dbConnectionsTotal st;
     memoOperationsTotal := memoOperationsTotal st;
     activeMemos := activeMemos st;
     console := console st;
     pending := pending st;
     next_promise := next_promise st;
     timers := timers st;
     listening := listening st;
     halted := h;
     requests := requests st |}.

Definition with_requests (m : gmap nat Exchange) (st : State) : State :=
  {| pool := pool st;
     httpRequestDuration := httpRequestDuration st;
     dbConnectionsTotal := dbConnectionsTotal st;
     memoOperationsTotal := memoOperationsTotal st;
     activeMemos := activeMemos st;
     console := console st;
     pending := pending st;
     next_promise := next_promise st;
     timers := timers st;
     listening := listening st;
     halted := halted st;
     requests := m |}.

(** *** Statements: state passing with exceptions *)

Definition M (A : Type) : Type := State -> Completion A * State.

Definition ret {A : Type} (a : A) : M A :=
  fun st => (Normal a, st).

Definition throw {A : Type} (e : JsError) : M A :=
  fun st => (Throw e, st).

Definition bind {A B : Type} (m : M A) (k : A -> M B) : M B :=
  fun st =>
    match m st with
    | (Normal a, st') => k a st'
    | (Throw e, st') => (Throw e, st')
    end.

(** [try { body } catch (error) { handler }]. *)
Definition try_catch {A : Type} (body : M A) (handler : JsError -> M A) : M A :=
  fun st =>
    match body st with
    | (Normal a, st') => (Normal a, st')
    | (Throw e, st') => handler e st'
    end.

Definition gets {A : Type} (f : State -> A) : M A :=
  fun st => (Normal (f st), st).

Definition modify (f : State -> State) : M unit :=
  fun st => (Normal tt, f st).

Declare Scope js_scope.
Delimit Scope js_scope with js.
Notation "x <- c1 ;; c2" := (bind c1 (fun x => c2))
  (at level 100, c1 at next level, right associativity) : js_scope.
Notation "c1 ;; c2" := (bind c1 (fun _ => c2))
  (at level 100, right associativity) : js_scope.
Local Open Scope js_scope.

(** *** The runtime: console, timers, promises, process *)

Definition console_log (message : string) : M unit :=
  modify (fun st => with_console (console st ++ [LogInfo message]) st).

Definition console_error (message : string) (error : JsError) : M unit :=
  modify (fun st => with_console (console st ++ [LogError message error]) st).

Definition setTimeout (cb : Callback) (ms : Z) : M unit :=
  modify (fun st => with_timers (timers st ++ [Timeout cb ms]) st).

Definition setInterval (cb : Callback) (ms : Z) : M unit :=
  modify (fun st => with_timers (timers st ++ [Interval cb ms]) st).

Definition process_exit (code : Z) : M unit :=
  modify (with_halted (Some (Exit code))).

(** [app.listen(port, '0.0.0.0', ..)]. *)
Definition app_listen : M unit :=
  modify (with_listening true).

(** [await call]: the promise gets the next identifier and the rest of the
    async function is parked as frame [k]. *)
Definition await (call : DriverCall) (k : Frame) : M Status :=
  fun st =>
    (Normal Suspended,
     with_pending (pending st ++ [(next_promise st, (call, k))])
                  (S (next_promise st)) st).

(** A method call on the module-level [pool]: a TypeError while [pool] is
    still undefined. *)
Definition on_pool (call : DriverCall) (k : Frame) : M Status :=
  p <- gets pool ;;
  match p with
  | None => throw (TypeError "Cannot read properties of undefined")
  | Some _ => await call k
  end.

(** The value an [await] evaluates to; a rejection is thrown at the await. *)
Definition awaited (r : Settled) : M DbValue :=
  match r with
  | Fulfilled v => ret v
  | Rejected e => throw e
  end.

(** [rows[0].count]. *)
Definition rows0_count (v : DbValue) : M Z :=
  match v with
  | VCount c => ret c
  | _ => throw (TypeError "Cannot read properties of undefined (reading 'count')")
  end.

(** *** The instruments of the application *)

(** [labels(v1, v2, ..)]: the values are paired with the label names of the
    descriptor, in order. *)
Definition labels (labelNames values : list string) : LabelSet :=
  list_to_map (zip labelNames values).

Definition counter_inc (get : State -> gmap LabelSet Q)
    (put : gmap LabelSet Q -> State -> State) (ls : LabelSet) : M unit :=
  fun st =>
    match increment ls 1 (get st) with
    | (c, None) => (Normal tt, put c st)
    | (_, Some _) => (Throw (InstrumentError "negative delta"), st)
    end.

(** [dbConnectionsTotal.inc()]. *)
Definition dbConnectionsTotal_inc : M unit :=
  counter_inc dbConnectionsTotal with_dbConnectionsTotal ∅.

(** [memoOperationsTotal.labels(operation, status).inc()]. *)
Definition memoOperationsTotal_inc (operation status : string) : M unit :=
  counter_inc memoOperationsTotal with_memoOperationsTotal
    (labels ["operation"; "status"] [operation; status]).

(** [activeMemos.set(value)]. *)
Definition activeMemos_set (value : Z) : M unit :=
  modify (fun st => with_activeMemos (set ∅ (inject_Z value) (activeMemos st)) st).

(** [httpRequestDuration.labels(method, route, status_code).observe(duration)].
    Whether the library raises on the call is not decided by the
    application; [raised] is the error it raises, if any. *)
Definition httpRequestDuration_observe (method route : string) (status_code : Z)
    (duration : Q) (raised : option JsError) : M unit :=
  match raised with
  | Some e => throw e
  | None =>
      modify (fun st =>
        with_httpRequestDuration
          (observe (labels ["method"; "route"; "status_code"]
                           [method; route; pretty status_code])
                   duration (httpRequestDuration st)) st)
  end.

(** *** updateMemoMetrics *)

Definition updateMemoMetrics_catch (error : JsError) : M Status :=
  console_error "Error updating memo metrics:" error ;;
  ret Returned.

(** Up to [await pool.execute(..)]. *)
Definition updateMemoMetrics : M Status :=
  try_catch (on_pool (Execute SqlCountSent) KUpdateMemoMetrics)
            updateMemoMetrics_catch.

(** From the await on. *)
Definition updateMemoMetrics_resume (r : Settled) : M Status :=
  try_catch (rows <- awaited r ;;
             count <- rows0_count rows ;;
             activeMemos_set count ;;
             ret Returned)
            updateMemoMetrics_catch.

(** *** Promise settlement and the start-up chain *)

(** [.then(() => { app.listen(..); setInterval(updateMemoMetrics, 30000) })];
    the callback given to [listen] only writes to the console, later. *)
Definition main_then : M unit :=
  app_listen ;;
  setInterval CbUpdateMemoMetrics 30000.

(** [.catch(error => { console.error(..); process.exit(1) })]. *)
Definition main_catch (error : JsError) : M unit :=
  console_error "Failed to start application:" error ;;
  process_exit 1.

(** The promise of an async call settles.  The start-up chain reacts to it;
    a floating promise that rejects is an unhandled rejection. *)
Definition settle (c : Caller) (outcome : Completion unit) : M unit :=
  match c, outcome with
  | Main, Normal _ => try_catch main_then main_catch
  | Main, Throw e => main_catch e
  | Floating, Normal _ => ret tt
  | Floating, Throw e => modify (with_halted (Some (Uncaught e)))
  end.

(** Run a segment of an async function on behalf of caller [c]; the call
    expression itself never throws. *)
Definition async (c : Caller) (segment : M Status) : M unit :=
  fun st =>
    match segment st with
    | (Normal Suspended, st') => (Normal tt, st')
    | (Normal Returned, st') => settle c (Normal tt) st'
    | (Throw e, st') => settle c (Throw e) st'
    end.

(** *** initializeDatabase *)

Definition initializeDatabase_catch (error : JsError) : M Status :=
  console_error "Database connection error:" error ;;
  setTimeout CbInitializeDatabase 5000 ;;
  ret Returned.

(** [pool = mysql.createPool(dbConfig)]; [createPool_raises] is the error
    the driver raises, if any. *)
Definition createPool (createPool_raises : option JsError) : M unit :=
  match createPool_raises with
  | Some e => throw e
  | None => modify (with_pool (Some dbConfig))
  end.

(** Up to [await pool.getConnection()]. *)
Definition initializeDatabase (createPool_raises : option JsError) (c : Caller)
  : M Status :=
  try_catch (createPool createPool_raises ;;
             console_log "Database connection pool created" ;;
             on_pool GetConnection (KInitGetConnection c))
            initializeDatabase_catch.

(** Up to [await connection.ping()]. *)
Definition initializeDatabase_connected (c : Caller) (r : Settled) : M Status :=
  try_catch (_ <- awaited r ;;
             await Ping (KInitPing c))
            initializeDatabase_catch.

(** [connection.release()] and the rest of the try block. *)
Definition initializeDatabase_pinged (r : Settled) : M Status :=
  try_catch (_ <- awaited r ;;
             console_log "Database connection successful" ;;
             async Floating updateMemoMetrics ;;
             ret Returned)
            initializeDatabase_catch.

(** *** The request-timing middleware *)

Definition new_exchange (method path : string) : Exchange :=
  {| req_method := method;
     req_path := path;
     req_route := None;
     finish_listener := None;
     res_statusCode := 200;
     res_body := None;
     res_finished := false |}.

Definition on_exchange (rid : nat) (f : Exchange -> Exchange) : M unit :=
  modify (fun st => with_requests (alter f rid (requests st)) st).

(** [res.on('finish', listener)], the listener closing over [start]. *)
Definition res_on_finish (rid : nat) (start : Z) : M unit :=
  on_exchange rid (fun x =>
    {| req_method := req_method x;
       req_path := req_path x;
       req_route := req_route x;
       finish_listener := Some start;
       res_statusCode := res_statusCode x;
       res_body := res_body x;
       res_finished := res_finished x |}).

Definition set_route (route : option string) (x : Exchange) : Exchange :=
  {| req_method := req_method x;
     req_path := req_path x;
     req_route := route;
     finish_listener := finish_listener x;
     res_statusCode := res_statusCode x;
     res_body := res_body x;
     res_finished := res_finished x |}.

Definition set_finished (x : Exchange) : Exchange :=
  {| req_method := req_method x;
     req_path := req_path x;
     req_route := req_route x;
     finish_listener := finish_listener x;
     res_statusCode := res_statusCode x;
     res_body := res_body x;
     res_finished := true |}.

(** [res.status(code)]. *)
Definition res_status (rid : nat) (code : Z) : M unit :=
  on_exchange rid (fun x =>
    {| req_method := req_method x;
       req_path := req_path x;
       req_route := req_route x;
       finish_listener := finish_listener x;
       res_statusCode := code;
       res_body := res_body x;
       res_finished := res_finished x |}).

(** [res.json(body)]: the response is ended with the status set so far. *)
Definition res_json (rid : nat) (b : Body) : M unit :=
  on_exchange rid (fun x =>
    {| req_method := req_method x;
       req_path := req_path x;
       req_route := req_route x;
       finish_listener := finish_listener x;
       res_statusCode := res_statusCode x;
       res_body := Some b;
       res_finished := res_finished x |}).

(** [app.use((req, res, next) => { const start = Date.now(); res.on(..);
    next() })]; [now] is what [Date.now()] returns. *)
Definition timing_middleware (rid : nat) (now : Z) (next : M unit) : M unit :=
  let start := now in
  res_on_finish rid start ;;
  next.

(** [req.route?.path || req.path]. *)
Definition route_label (x : Exchange) : string :=
  match req_route x with
  | Some p => if String.eqb p "" then req_path x else p
  | None => req_path x
  end.

(** The 'finish' listener; [now] is what [Date.now()] returns. *)
Definition on_finish (x : Exchange) (start now : Z) (raised : option JsError)
  : M unit :=
  let end_ := now in
  let duration := (inject_Z (end_ - start) / 1000)%Q in
  httpRequestDuration_observe (req_method x) (route_label x) (res_statusCode x)
                              duration raised.

(** *** The /api handlers *)

Inductive Handler :=
| GetMemoStats
| GetMemos
| GetAssignments (userId : string)
| PutAccept (assignmentId : string)
| GetNotifications (userId : string).

Definition route_path (h : Handler) : string :=
  match h with
  | GetMemoStats => "/api/memo-stats"
  | GetMemos => "/api/memos"
  | GetAssignments _ => "/api/users/:userId/assignments"
  | PutAccept _ => "/api/assignments/:assignmentId/accept"
  | GetNotifications _ => "/api/users/:userId/notifications"
  end.

(** Every path given to [app.get] or [app.put]. *)
Definition routes : list string :=
  ["/health"; "/metrics"; "/"; "/admin/dashboard"; "/staff/dashboard";
   "/api/memo-stats"; "/api/memos"; "/api/users/:userId/assignments";
   "/api/assignments/:assignmentId/accept"; "/api/users/:userId/notifications"].

(** GET /api/memo-stats *)
Definition memo_stats_catch (rid : nat) (error : JsError) : M Status :=
  memoOperationsTotal_inc "get_stats" "error" ;;
  console_error "Database error:" error ;;
  res_status rid 500 ;;
  res_json rid (BError "Database error") ;;
  ret Returned.

Definition memo_stats (rid : nat) : M Status :=
  try_catch (dbConnectionsTotal_inc ;;
             memoOperationsTotal_inc "get_stats" "attempt" ;;
             on_pool (Execute SqlCountToday) (KStatsToday rid))
            (memo_stats_catch rid).

Definition memo_stats_today (rid : nat) (r : Settled) : M Status :=
  try_catch (todayMemos <- awaited r ;;
             on_pool (Execute SqlCountActive) (KStatsTotal rid todayMemos))
            (memo_stats_catch rid).

Definition memo_stats_total (rid : nat) (todayMemos : DbValue) (r : Settled)
  : M Status :=
  try_catch (totalMemos <- awaited r ;;
             on_pool (Execute SqlWeeklyTrend)
                     (KStatsTrend rid todayMemos totalMemos))
            (memo_stats_catch rid).

Definition memo_stats_trend (rid : nat) (todayMemos totalMemos : DbValue)
    (r : Settled) : M Status :=
  try_catch (weeklyTrend <- awaited r ;;
             memoOperationsTotal_inc "get_stats" "success" ;;
             today <- rows0_count todayMemos ;;
             total <- rows0_count totalMemos ;;
             res_json rid (BStats today total weeklyTrend) ;;
             ret Returned)
            (memo_stats_catch rid).

(** GET /api/memos *)
Definition memos_catch (rid : nat) (error : JsError) : M Status :=
  memoOperationsTotal_inc "get_all" "error" ;;
  console_error "Error fetching memos:" error ;;
  res_status rid 500 ;;
  res_json rid (BError "Internal server error") ;;
  ret Returned.

Definition memos (rid : nat) : M Status :=
  try_catch (dbConnectionsTotal_inc ;;
             memoOperationsTotal_inc "get_all" "attempt" ;;
             on_pool (Execute SqlAllMemos) (KMemos rid))
            (memos_catch rid).

Definition memos_resume (rid : nat) (r : Settled) : M Status :=
  try_catch (rows <- awaited r ;;
             memoOperationsTotal_inc "get_all" "success" ;;
             res_json rid (BRows rows) ;;
             ret Returned)
            (memos_catch rid).

(** GET /api/users/:userId/assignments *)
Definition assignments_catch (rid : nat) (error : JsError) : M Status :=
  memoOperationsTotal_inc "get_assignments" "error" ;;
  console_error "Error fetching assignments:" error ;;
  res_status rid 500 ;;
  res_json rid (BError "Internal server error") ;;
  ret Returned.

Definition assignments (rid : nat) (userId : string) : M Status :=
  try_catch (dbConnectionsTotal_inc ;;
             memoOperationsTotal_inc "get_assignments" "attempt" ;;
             on_pool (Execute (SqlAssignments userId)) (KAssignments rid))
            (assignments_catch rid).

Definition assignments_resume (rid : nat) (r : Settled) : M Status :=
  try_catch (rows <- awaited r ;;
             memoOperationsTotal_inc "get_assignments" "success" ;;
             res_json rid (BRows rows) ;;
             ret Returned)
            (assignments_catch rid).

(** PUT /api/assignments/:assignmentId/accept *)
Definition accept_catch (rid : nat) (error : JsError) : M Status :=
  memoOperationsTotal_inc "accept_memo" "error" ;;
  console_error "Error accepting memo:" error ;;
  res_status rid 500 ;;
  res_json rid (BError "Internal server error") ;;
  ret Returned.

Definition accept (rid : nat) (assignmentId : string) : M Status :=
  try_catch (dbConnectionsTotal_inc ;;
             memoOperationsTotal_inc "accept_memo" "attempt" ;;
             on_pool (Execute (SqlAccept assignmentId)) (KAccept rid))
            (accept_catch rid).

(** [result.affectedRows > 0]; the comparison is false on anything that has
    no such field. *)
Definition affectedRows_positive (result : DbValue) : bool :=
  match result with
  | VResult n => (0 <? n)%Z
  | _ => false
  end.

Definition accept_resume (rid : nat) (r : Settled) : M Status :=
  try_catch (result <- awaited r ;;
             if affectedRows_positive result
             then (memoOperationsTotal_inc "accept_memo" "success" ;;
                   res_json rid (BMessage "Memo accepted successfully") ;;
                   async Floating updateMemoMetrics ;;
                   ret Returned)
             else (memoOperationsTotal_inc "accept_memo" "not_found" ;;
                   res_status rid 404 ;;
                   res_json rid (BError "Assignment not found") ;;
                   ret Returned))
            (accept_catch rid).

(** GET /api/users/:userId/notifications *)
Definition notifications_catch (rid : nat) (error : JsError) : M Status :=
  console_error "Error fetching notifications:" error ;;
  res_status rid 500 ;;
  res_json rid (BError "Internal server error") ;;
  ret Returned.

Definition notifications (rid : nat) (userId : string) : M Status :=
  try_catch (dbConnectionsTotal_inc ;;
             on_pool (Execute (SqlNotifications userId)) (KNotifications rid))
            (notifications_catch rid).

Definition notifications_resume (rid : nat) (r : Settled) : M Status :=
  try_catch (rows <- awaited r ;;
             res_json rid (BRows rows) ;;
             ret Returned)
            (notifications_catch rid).

Definition handler (h : Handler) (rid : nat) : M Status :=
  match h with
  | GetMemoStats => memo_stats rid
  | GetMemos => memos rid
  | GetAssignments userId => assignments rid userId
  | PutAccept assignmentId => accept rid assignmentId
  | GetNotifications userId => notifications rid userId
  end.

(** *** The event loop *)

(** The code after an [await], run when its promise settles. *)
Definition resume (k : Frame) (r : Settled) : M unit :=
  match k with
  | KInitGetConnection c => async c (initializeDatabase_connected c r)
  | KInitPing c => async c (initializeDatabase_pinged r)
  | KUpdateMemoMetrics => async Floating (updateMemoMetrics_resume r)
  | KStatsToday rid => async Floating (memo_stats_today rid r)
  | KStatsTotal rid today => async Floating (memo_stats_total rid today r)
  | KStatsTrend rid today total =>
      async Floating (memo_stats_trend rid today total r)
  | KMemos rid => async Floating (memos_resume rid r)
  | KAssignments rid => async Floating (assignments_resume rid r)
  | KAccept rid => async Floating (accept_resume rid r)
  | KNotifications rid => async Floating (notifications_resume rid r)
  end.

(** The function a timer was armed with. *)
Definition callback (cb : Callback) (createPool_raises : option JsError)
  : M unit :=
  match cb with
  | CbInitializeDatabase =>
      async Floating (initializeDatabase createPool_raises Floating)
  | CbUpdateMemoMetrics => async Floating updateMemoMetrics
  end.

(** What the environment does to the process.  The database driver, the
    metrics library, Express's router and the clock are outside the
    application: the events carry their decisions, among them the error that
    [createPool] or [observe] raises, if it raises one. *)
Inductive Event :=
| EvSettle (p : nat) (r : Settled)
    (* the driver settles promise p *)
| EvTimer (i : nat) (createPool_raises : option JsError)
    (* the i-th armed timer fires *)
| EvRequest (rid : nat) (method path : string) (now : Z)
    (* a request enters the middleware stack *)
| EvRoute (rid : nat) (h : Handler)
    (* the router matched the request to an /api handler *)
| EvRespond (rid : nat) (route : option string) (status : Z)
    (* another layer (a page, static file, 404) ended the response *)
| EvFinish (rid : nat) (now : Z) (raised : option JsError).
    (* the response has been handed to the network: 'finish' *)

(** Remove promise [p] from the pending list. *)
Fixpoint take (p : nat) (l : list (nat * (DriverCall * Frame)))
  : option ((DriverCall * Frame) * list (nat * (DriverCall * Frame))) :=
  match l with
  | [] => None
  | (q, cf) :: rest =>
      if Nat.eqb p q then Some (cf, rest)
      else match take p rest with
           | Some (cf', rest') => Some (cf', (q, cf) :: rest')
           | None => None
           end
  end.

(** One callback run by the event loop; an exception that leaves it is
    uncaught and ends the process. *)
Definition run_callback (m : M unit) (st : State) : State :=
  match m st with
  | (Normal _, st') => st'
  | (Throw e, st') => with_halted (Some (Uncaught e)) st'
  end.

Definition routable (x : Exchange) : bool :=
  match req_route x, res_body x with
  | None, None => true
  | _, _ => false
  end.

Definition step (ev : Event) (st : State) : State :=
  match halted st with
  | Some _ => st
  | None =>
      match ev with
      | EvSettle p r =>
          match take p (pending st) with
          | Some ((call, k), rest) =>
              if well_kinded call r
              then run_callback (resume k r)
                                (with_pending rest (next_promise st) st)
              else st
          | None => st
          end
      | EvTimer i createPool_raises =>
          match timers st !! i with
          | Some (Timeout cb _) =>
              run_callback (callback cb createPool_raises)
                           (with_timers (delete i (timers st)) st)
          | Some (Interval cb _) =>
              run_callback (callback cb createPool_raises) st
          | None => st
          end
      | EvRequest rid method path now =>
          match listening st, requests st !! rid with
          | true, None =>
              run_callback (timing_middleware rid now (ret tt))
                (with_requests (<[rid := new_exchange method path]> (requests st)) st)
          | _, _ => st
          end
      | EvRoute rid h =>
          match requests st !! rid with
          | Some x =>
              if routable x
              then run_callback
                     (on_exchange rid (set_route (Some (route_path h))) ;;
                      async Floating (handler h rid)) st
              else st
          | None => st
          end
      | EvRespond rid route status =>
          match requests st !! rid with
          | Some x =>
              if routable x
              then run_callback
                     (on_exchange rid (set_route route) ;;
                      res_status rid status ;;
                      res_json rid BOther) st
              else st
          | None => st
          end
      | EvFinish rid now raised =>
          match requests st !! rid with
          | Some x =>
              match res_body x, res_finished x, finish_listener x with
              | Some _, false, Some start =>
                  run_callback (on_exchange rid set_finished ;;
                                on_finish x start now raised) st
              | _, _, _ => st
              end
          | None => st
          end
      end
  end.

Definition run (evs : list Event) (st : State) : State :=
  fold_left (fun s ev => step ev s) evs st.

(** The state when the module starts to load; [bounds] are the bucket
    boundaries the library gives a Histogram declared without any. *)
Definition initial (bounds : list Q) : State :=
  {| pool := None;
     httpRequestDuration := new_histogram bounds;
     dbConnectionsTotal := ∅;
     memoOperationsTotal := ∅;
     activeMemos := ∅;
     console := [];
     pending := [];
     next_promise := 0;
     timers := [];
     listening := false;
     halted := None;
     requests := ∅ |}.

(** Loading the module: [initializeDatabase().then(..).catch(..)]. *)
Definition boot (bounds : list Q) (createPool_raises : option JsError) : State :=
  run_callback (async Main (initializeDatabase createPool_raises Main))
               (initial bounds).

(** *** Observations *)

Definition is_refresh (p : nat * (DriverCall * Frame)) : bool :=
  match snd (snd p) with
  | KUpdateMemoMetrics => true
  | _ => false
  end.

(** The refreshes whose COUNT query has not been answered yet. *)
Definition refreshes_in_flight (st : State) : nat :=
  length (filter is_refresh (pending st)).

Definition is_main (p : nat * (DriverCall * Frame)) : bool :=
  match snd (snd p) with
  | KInitGetConnection Main => true
  | KInitPing Main => true
  | _ => false
  end.

(** The start-up call of initializeDatabase is still parked on an await. *)
Definition starting (st : State) : bool :=
  existsb is_main (pending st).

Definition refresh_timer : Timer := Interval CbUpdateMemoMetrics 30000.

(** The COUNT query of a refresh, awaited by updateMemoMetrics. *)
Definition refresh : DriverCall * Frame :=
  (Execute SqlCountSent, KUpdateMemoMetrics).

(** The value shown by the active_memos_count gauge. *)
Definition gauge (st : State) : Q := series_value (activeMemos st) ∅.

(** The value of db_connections_total. *)
Definition connections (st : State) : Q := series_value (dbConnectionsTotal st) ∅.

(** The handler invocations made by the router along a run. *)
Definition invokes (ev : Event) (st : State) : bool :=
  match halted st, ev with
  | None, EvRoute rid h =>
      match requests st !! rid with
      | Some x => routable x
      | None => false
      end
  | _, _ => false
  end.

Fixpoint invocations (evs : list Event) (st : State) : nat :=
  match evs with
  | [] => 0
  | ev :: rest =>
      (if invokes ev st then 1 else 0) + invocations rest (step ev st)
  end.

(** Every pending promise was numbered below the next identifier. *)
Definition fresh (st : State) : Prop :=
  Forall (fun q => fst q < next_promise st) (pending st).

(** The server accepts requests and the refresh timer is armed. *)
Definition serving (st : State) : Prop :=
  listening st = true ∧ In refresh_timer (timers st).

(** Request [rid] went through the timing middleware at time [start]. *)
Definition timed (rid : nat) (method path : string) (start : Z) (st : State)
  : Prop :=
  exists x, requests st !! rid = Some x
            ∧ req_method x = method ∧ req_path x = path
            ∧ finish_listener x = Some start.

(** Relations between the state before and after a piece of code. *)
Definition same_connections (st st' : State) : Prop :=
  dbConnectionsTotal st' = dbConnectionsTotal st.

Definition no_exit (st st' : State) : Prop :=
  halted st' = halted st ∨ exists e, halted st' = Some (Uncaught e).

Definition stays_fresh (st st' : State) : Prop :=
  fresh st -> fresh st'.

Definition keeps_serving (st st' : State) : Prop :=
  serving st -> serving st'.

Definition keeps_starting (st st' : State) : Prop :=
  starting st = true -> starting st' = true.

Definition keeps_timed (rid : nat) (method path : string) (start : Z)
    (st st' : State) : Prop :=
  timed rid method path start st -> timed rid method path start st'.

(** *** Reasoning about statements *)

(** [m] moves every state to one related to it by [R]. *)
Definition respects {A : Type} (R : State -> State -> Prop) (m : M A) : Prop :=
  forall st, R st (snd (m st)).

(** [m] completes normally from every state. *)
Definition never_throws {A : Type} (m : M A) : Prop :=
  forall st, exists a, fst (m st) = Normal a.

(** *** Further observations *)

(** Whose continuation a frame is: the start-up call of initializeDatabase,
    a retry of it, a refresh, or a request handler. *)
Inductive FrameClass := StartupFrame | RetryFrame | RefreshFrame | RequestFrame.

Definition frame_class (k : Frame) : FrameClass :=
  match k with
  | KInitGetConnection Main | KInitPing Main => StartupFrame
  | KInitGetConnection Floating | KInitPing Floating => RetryFrame
  | KUpdateMemoMetrics => RefreshFrame
  | _ => RequestFrame
  end.

(** The request a handler frame works for. *)
Definition frame_request (k : Frame) : option nat :=
  match k with
  | KStatsToday rid | KStatsTotal rid _ | KStatsTrend rid _ _
  | KMemos rid | KAssignments rid | KAccept rid | KNotifications rid => Some rid
  | _ => None
  end.

(** The classes of the frames of requests and refreshes. *)
Definition request_or_refresh (c : FrameClass) : Prop :=
  c = RequestFrame ∨ c = RefreshFrame.

(** [setTimeout(initializeDatabase, 5000)]. *)
Definition retry_timer : Timer := Timeout CbInitializeDatabase 5000.

(** A connection attempt (of start-up or of a retry) awaiting the driver. *)
Definition is_attempt (p : nat * (DriverCall * Frame)) : bool :=
  match snd (snd p) with
  | KInitGetConnection _ | KInitPing _ => true
  | _ => false
  end.

Definition is_timeout (t : Timer) : bool :=
  match t with
  | Timeout _ _ => true
  | Interval _ _ => false
  end.

Definition is_interval (t : Timer) : bool :=
  match t with
  | Timeout _ _ => false
  | Interval _ _ => true
  end.

Definition attempts (st : State) : nat := length (filter is_attempt (pending st)).
Definition startups (st : State) : nat := length (filter is_main (pending st)).
Definition retries (st : State) : nat := length (filter is_timeout (timers st)).
Definition intervals (st : State) : nat := length (filter is_interval (timers st)).

(** The only timers are the two the application arms. *)
Definition timers_known (st : State) : Prop :=
  Forall (fun t => t = retry_timer ∨ t = refresh_timer) (timers st).

(** The bookkeeping of connection attempts and timers. *)
Definition scheduled (st : State) : Prop :=
  timers_known st
  ∧ attempts st + retries st <= 1
  ∧ intervals st + startups st = 1.

(** Every event but a 'finish' whose observation raises. *)
Definition quiet (ev : Event) : bool :=
  match ev with
  | EvFinish _ _ (Some _) => false
  | _ => true
  end.

(** The count an event hands to the refresher, when the event is the answer
    to the query of a refresh. *)
Definition answered_refresh (ev : Event) (st : State) : option Z :=
  match halted st, ev with
  | None, EvSettle p (Fulfilled (VCount n)) =>
      match take p (pending st) with
      | Some ((call, KUpdateMemoMetrics), _) =>
          if well_kinded call (Fulfilled (VCount n)) then Some n else None
      | _ => None
      end
  | _, _ => None
  end.

(** The count of the refresh answered last along a run. *)
Fixpoint last_answer (evs : list Event) (st : State) : option Z :=
  match evs with
  | [] => None
  | ev :: rest =>
      match last_answer rest (step ev st) with
      | Some n => Some n
      | None => answered_refresh ev st
      end
  end.

(** The names of the values of memos.status in init-db/init.sql. *)
Definition status_name (s : MemoStatus) : string :=
  match s with
  | draft => "draft"
  | sent => "sent"
  | archived => "archived"
  end.

(** [SELECT COUNT( * ) as count FROM memos WHERE status = name]. *)
Definition select_count_status (name : string) (memos : list Memo) : Z :=
  Z.of_nat (length (filter (fun m => String.eqb (status_name (memo_status m)) name)
                           memos)).

(** The value of a memo_operations_total series. *)
Definition operations (operation status : string) (st : State) : Q :=
  series_value (memoOperationsTotal st)
               (labels ["operation"; "status"] [operation; status]).

(** The operation label under which a handler frame counts. *)
Definition frame_operation (k : Frame) : option string :=
  match k with
  | KStatsToday _ | KStatsTotal _ _ | KStatsTrend _ _ _ => Some "get_stats"
  | KMemos _ => Some "get_all"
  | KAssignments _ => Some "get_assignments"
  | KAccept _ => Some "accept_memo"
  | _ => None
  end.

Definition works_on (operation : string) (p : nat * (DriverCall * Frame)) : bool :=
  match frame_operation (snd (snd p)) with
  | Some operation' => String.eqb operation' operation
  | None => false
  end.

Definition is_request (p : nat * (DriverCall * Frame)) : bool :=
  match frame_class (snd (snd p)) with
  | RequestFrame => true
  | _ => false
  end.

Definition is_count (v : DbValue) : bool :=
  match v with
  | VCount _ => true
  | _ => false
  end.

(** A memo-stats frame is parked on the query whose answer it reads next, and
    the answers it already holds are rows of a count. *)
Definition coherent (p : nat * (DriverCall * Frame)) : bool :=
  match snd (snd p) with
  | KStatsToday _ =>
      match fst (snd p) with
      | Execute SqlCountToday => true
      | _ => false
      end
  | KStatsTotal _ todayMemos =>
      match fst (snd p) with
      | Execute SqlCountActive => is_count todayMemos
      | _ => false
      end
  | KStatsTrend _ todayMemos totalMemos =>
      is_count todayMemos && is_count totalMemos
  | _ => true
  end.

(** The handlers of an operation that still await a query. *)
Definition in_progress (operation : string) (st : State) : nat :=
  length (filter (works_on operation) (pending st)).

(** Every attempt of an operation is in progress or has been counted as a
    success, an error or a not_found. *)
Definition balanced (operation : string) (st : State) : Prop :=
  (operations operation "attempt" st
   == operations operation "success" st
      + operations operation "error" st
      + operations operation "not_found" st
      + inject_Z (Z.of_nat (in_progress operation st)))%Q.

(** More relations between the state before and after a piece of code. *)
Definition same_requests (st st' : State) : Prop :=
  memoOperationsTotal st' = memoOperationsTotal st
  ∧ filter is_request (pending st') = filter is_request (pending st).

Definition same_halted (st st' : State) : Prop :=
  halted st' = halted st.

Definition same_gauge (st st' : State) : Prop :=
  activeMemos st' = activeMemos st.

Definition same_schedule (st st' : State) : Prop :=
  timers st' = timers st
  ∧ attempts st' = attempts st
  ∧ startups st' = startups st.

Definition counters_grow (st st' : State) : Prop :=
  forall ls,
    (series_value (dbConnectionsTotal st) ls
     <= series_value (dbConnectionsTotal st') ls)%Q
    ∧ (series_value (memoOperationsTotal st) ls
       <= series_value (memoOperationsTotal st') ls)%Q.

(** Request [rid] was matched to the route with pattern [pattern]. *)
Definition routed (rid : nat) (pattern : string) (st : State) : Prop :=
  exists x, requests st !! rid = Some x ∧ req_route x = Some pattern.

Definition keeps_routed (rid : nat) (pattern : string) (st st' : State) : Prop :=
  routed rid pattern st -> routed rid pattern st'.

(** *** The metrics library at the call of the 'finish' listener *)

(** The label names httpRequestDuration is declared with. *)
Definition httpRequestDuration_labelNames : list string :=
  ["method"; "route"; "status_code"].

(** Modelled from the spec: the check the metrics library (prom-client,
    which is not in the repository) makes on [labels(v1, ..)].  A label set
    that does not match the label names the descriptor declares is rejected
    with an error; [observe] of a number under a matching label set has no
    failure case. *)
Definition labels_raises (labelNames values : list string) : option JsError :=
  if Nat.eqb (length values) (length labelNames) then None
  else Some (InstrumentError "Invalid number of arguments").

(** What the library raises at the call the 'finish' listener of exchange
    [x] makes: [labels(req.method, route, res.statusCode)]. *)
Definition finish_raises (x : Exchange) : option JsError :=
  labels_raises httpRequestDuration_labelNames
    [req_method x; route_label x; pretty (res_statusCode x)].

#[global] Instance JsError_eq_dec : EqDecision JsError.
Proof. solve_decision. Defined.

(** The library behaves as modelled: a 'finish' event carries the error the
    library raises at the call its listener makes. *)
Definition library_event (ev : Event) (st : State) : bool :=
  match ev with
  | EvFinish rid _ raised =>
      match requests st !! rid with
      | Some x => bool_decide (raised = finish_raises x)
      | None => true
      end
  | _ => true
  end.

Fixpoint library_run (evs : list Event) (st : State) : bool :=
  match evs with
  | [] => true
  | ev :: evs' => library_event ev st && library_run evs' (step ev st)
  end.

(** *** The memos table, as the count queries read it *)

(** The status a count query of the application names in its WHERE clause. *)
Definition where_status (q : Sql) : option string :=
  match q with
  | SqlCountSent => Some "sent"
  | SqlCountActive => Some "active"
  | _ => None
  end.

(** The answer to [call] is the one a database holding [memos] gives: a
    count by status is the number of rows with that status. *)
Definition truthful (memos : list Memo) (call : DriverCall) (v : DbValue)
  : Prop :=
  match call with
  | Execute q =>
      match where_status q with
      | Some name => v = VCount (select_count_status name memos)
      | None => True
      end
  | _ => True
  end.

(** A segment of initializeDatabase ended in its catch block: it returned,
    having logged the error and armed the retry and nothing else. *)
Definition answered_by_retry (e : JsError) (st : State)
    (out : Completion Status * State) : Prop :=
  fst out = Normal Returned
  ∧ console (snd out)
    = (console st ++ [LogError "Database connection error:" e])%list
  ∧ timers (snd out) = (timers st ++ [retry_timer])%list
  ∧ pending (snd out) = pending st
  ∧ halted (snd out) = halted st.

(** What the start-up chain arms when the call that ended is the start-up
    call: the refresh interval. *)
Definition armed_by (p : nat * (DriverCall * Frame)) : list Timer :=
  if is_main p then [refresh_timer] else [].

End App.

(** ** Properties of the instruments *)

Section Instruments.
Import Metrics.
Local Open Scope Q_scope.

Implicit Types (c : gmap LabelSet Q) (h : Histogram) (ls : LabelSet) (v : Q).

Lemma series_value_insert c ls v : series_value (<[ls := v]> c) ls = v.
Proof. unfold series_value. by rewrite lookup_insert_eq. Qed.

Lemma series_value_insert_ne c ls ls' v :
  ls ≠ ls' → series_value (<[ls := v]> c) ls' = series_value c ls'.
Proof. intros Hne. unfold series_value. by rewrite lookup_insert_ne. Qed.

Lemma increment_accepted c ls delta :
  0 <= delta →
  increment ls delta c = (<[ls := series_value c ls + delta]> c, None).
Proof.
  intros Hle. unfold increment.
  apply Qle_bool_iff in Hle. by rewrite Hle.
Qed.

Lemma increment_rejected c ls delta :
  delta < 0 → increment ls delta c = (c, Some NegativeDeltaError).
Proof.
  intros Hlt. unfold increment.
  destruct (Qle_bool 0 delta) eqn:Hb; [|done].
  apply Qle_bool_iff in Hb. by apply Qlt_not_le in Hlt.
Qed.

(** One call, accepted or not, lowers no series. *)
Lemma increment_monotone c ls delta ls' :
  series_value c ls' <= series_value (fst (increment ls delta c)) ls'.
Proof.
  unfold increment. destruct (Qle_bool 0 delta) eqn:Hb; simpl.
  - apply Qle_bool_iff in Hb.
    destruct (decide (ls = ls')) as [->|Hne].
    + rewrite series_value_insert.
      rewrite <- (Qplus_0_r (series_value c ls')) at 1.
      apply Qplus_le_compat; [apply Qle_refl | done].
    + rewrite series_value_insert_ne by done. apply Qle_refl.
  - apply Qle_refl.
Qed.

Lemma increments_monotone calls c ls' :
  series_value c ls' <= series_value (increments calls c) ls'.
Proof.
  revert c. induction calls as [|[ls delta] calls IH]; intros c; simpl.
  - apply Qle_refl.
  - eapply Qle_trans; [apply (increment_monotone c ls delta ls') | apply IH].
Qed.

(** C7. A Counter series never decreases, whatever calls are made on the
    counter, and an [increment] with a negative delta fails with
    [NegativeDeltaError] and hands back the counter it was given: every
    series reads the same after the failed call as before it. *)
Theorem counter_rejects_negative_delta c ls delta calls ls' :
  delta < 0 →
  increment ls delta c = (c, Some NegativeDeltaError)
  ∧ series_value (fst (increment ls delta c)) ls' = series_value c ls'
  ∧ series_value c ls' <= series_value (increments calls c) ls'.
Proof.
  intros Hlt. rewrite (increment_rejected c ls delta Hlt).
  split; [done|]. split; [done|]. apply increments_monotone.
Qed.

Lemma counter_rejects_negative_delta_witness :
  (-1 < 0)
  ∧ increment ∅ (-1) {[ ∅ := 5 ]} = ({[ ∅ := 5 ]}, Some NegativeDeltaError)
  ∧ series_value (fst (increment ∅ (-1) {[ ∅ := 5 ]})) ∅
    = series_value {[ ∅ := 5 ]} ∅
  ∧ series_value {[ ∅ := 5 ]} ∅
    <= series_value (increments [(∅, 2); (∅, -3)] {[ ∅ := 5 ]}) ∅.
Proof.
  split; [reflexivity|].
  apply (counter_rejects_negative_delta {[ ∅ := 5 ]} ∅ (-1) [(∅, 2); (∅, -3)] ∅).
  reflexivity.
Defined.

Lemma series_of_observe h ls v :
  series_of (observe ls v h) ls = observe_series v (series_of h ls).
Proof. unfold series_of, observe. simpl. by rewrite lookup_insert_eq. Qed.

Lemma series_of_observe_ne h ls ls' v :
  ls ≠ ls' → series_of (observe ls v h) ls' = series_of h ls'.
Proof. intros Hne. unfold series_of, observe. simpl. by rewrite lookup_insert_ne. Qed.

Lemma series_of_observations h ls vs :
  series_of (observations ls vs h) ls
  = fold_left (fun s v => observe_series v s) vs (series_of h ls).
Proof.
  unfold observations. revert h.
  induction vs as [|v vs IH]; intros h; simpl; [done|].
  by rewrite IH, series_of_observe.
Qed.

Lemma bump_bumped v bc : bumped v bc (bump v bc).
Proof.
  unfold bumped, bump. simpl. split; [done|].
  destruct (Qle_bool v (fst bc)) eqn:Hb.
  - left. split; [by apply Qle_bool_iff | done].
  - right. split; [|done]. intros Hle. apply Qle_bool_iff in Hle. congruence.
Qed.

Lemma buckets_bumped v (l : list (Q * nat)) : Forall2 (bumped v) l (map (bump v) l).
Proof. induction l; simpl; constructor; [apply bump_bumped | done]. Qed.

(** C6. [observe] on a series increments the cumulative count of exactly
    the buckets whose boundary is at least the value (the +Inf bucket
    always), increments the count by one and adds the value to the sum; with
    boundaries 1, 5, 10 the observations 0.5, 3, 7, 20 give the cumulative
    counts 1, 2, 3 and 4 for +Inf, the sum 30.5 and the count 4. *)
Theorem observe_updates_buckets_sum_count :
  (∀ h ls v,
     let s := series_of h ls in
     let s' := series_of (observe ls v h) ls in
     Forall2 (bumped v) (buckets s) (buckets s')
     ∧ bucket_inf s' = S (bucket_inf s)
     ∧ h_count s' = S (h_count s)
     ∧ h_sum s' = h_sum s + v)
  ∧ (∀ ls,
       let s := series_of
                  (observations ls [1 # 2; 3; 7; 20] (new_histogram [1; 5; 10]))
                  ls in
       buckets s = [(1, 1%nat); (5, 2%nat); (10, 3%nat)]
       ∧ bucket_inf s = 4%nat
       ∧ cumulative_counts s = [1; 2; 3; 4]%nat
       ∧ h_sum s == 61 # 2
       ∧ h_count s = 4%nat).
Proof.
  split.
  - intros h ls v. cbv zeta. rewrite series_of_observe. simpl.
    split; [apply buckets_bumped | done].
  - intros ls. cbv zeta. rewrite series_of_observations.
    unfold series_of, new_histogram. simpl. rewrite lookup_empty. simpl.
    repeat split; reflexivity.
Qed.

End Instruments.

(** ** Properties of the application *)

Import Metrics App.
Local Open Scope list_scope.
Local Open Scope js_scope.

(** *** Statements that cannot throw *)

Section NeverThrows.

Context {A B : Type}.

Lemma never_throws_ret (a : A) : never_throws (ret a).
Proof. intros st. by exists a. Qed.

Lemma never_throws_modify f : never_throws (modify f).
Proof. intros st. by exists tt. Qed.

Lemma never_throws_gets (f : State -> A) : never_throws (gets f).
Proof. intros st. by exists (f st). Qed.

Lemma never_throws_bind (m : M A) (k : A -> M B) :
  never_throws m -> (forall a, never_throws (k a)) -> never_throws (bind m k).
Proof.
  intros Hm Hk st. unfold bind.
  destruct (Hm st) as [a Ha]. destruct (m st) as [c st']. simpl in Ha. subst c.
  apply Hk.
Qed.

Lemma never_throws_try_catch (body : M A) handler :
  (forall e, never_throws (handler e)) -> never_throws (try_catch body handler).
Proof.
  intros Hh st. unfold try_catch.
  destruct (body st) as [[a|e] st']; [by exists a | apply Hh].
Qed.

End NeverThrows.

Lemma never_throws_counter_inc get put ls : never_throws (counter_inc get put ls).
Proof. intros st. by exists tt. Qed.

Lemma never_throws_await call k : never_throws (await call k).
Proof. intros st. by exists Suspended. Qed.

Lemma never_throws_settle_floating outcome : never_throws (settle Floating outcome).
Proof. destruct outcome; intros st; by exists tt. Qed.

Lemma never_throws_async_floating seg : never_throws (async Floating seg).
Proof.
  intros st. unfold async.
  destruct (seg st) as [[[]|e] st']; simpl; try by exists tt.
Qed.

Create HintDb never_throws.
#[local] Hint Resolve never_throws_ret never_throws_modify never_throws_gets
  never_throws_counter_inc never_throws_await never_throws_async_floating
  : never_throws.

Ltac never_throws_tac :=
  repeat first
    [ apply never_throws_try_catch; intros ?
    | apply never_throws_bind; [|intros ?]
    | solve [auto with never_throws] ].

Lemma never_throws_initializeDatabase_catch e :
  never_throws (initializeDatabase_catch e).
Proof.
  unfold initializeDatabase_catch, console_error, setTimeout. never_throws_tac.
Qed.

(** initializeDatabase never rejects: none of its three segments lets an
    exception out. *)
Lemma initializeDatabase_never_throws raises c :
  never_throws (initializeDatabase raises c).
Proof. apply never_throws_try_catch, never_throws_initializeDatabase_catch. Qed.

Lemma initializeDatabase_connected_never_throws c r :
  never_throws (initializeDatabase_connected c r).
Proof. apply never_throws_try_catch, never_throws_initializeDatabase_catch. Qed.

Lemma initializeDatabase_pinged_never_throws r :
  never_throws (initializeDatabase_pinged r).
Proof. apply never_throws_try_catch, never_throws_initializeDatabase_catch. Qed.

Lemma main_then_never_throws : never_throws main_then.
Proof. unfold main_then, app_listen, setInterval. never_throws_tac. Qed.

(** *** Relations respected by the code

    A relation that is a preorder and that every primitive statement
    respects is respected by the async functions, the handlers and the timer
    callbacks built from them.  Each lemma depends only on the primitives
    its code uses. *)

Section Respects.

Variable R : State -> State -> Prop.
Hypothesis R_refl : forall st, R st st.
Hypothesis R_trans : forall a b c, R a b -> R b c -> R a c.

Hypothesis R_console_log : forall msg, respects R (console_log msg).
Hypothesis R_console_error : forall msg e, respects R (console_error msg e).
Hypothesis R_setTimeout : forall cb ms, respects R (setTimeout cb ms).
Hypothesis R_setInterval : forall cb ms, respects R (setInterval cb ms).
Hypothesis R_app_listen : respects R app_listen.
Hypothesis R_await : forall call k, respects R (await call k).
Hypothesis R_set_pool : respects R (modify (with_pool (Some dbConfig))).
Hypothesis R_uncaught :
  forall e, respects R (modify (with_halted (Some (Uncaught e)))).
Hypothesis R_dbConnectionsTotal_inc : respects R dbConnectionsTotal_inc.
Hypothesis R_memoOperationsTotal_inc :
  forall op status, respects R (memoOperationsTotal_inc op status).
Hypothesis R_activeMemos_set : forall v, respects R (activeMemos_set v).
Hypothesis R_res_status : forall rid code, respects R (res_status rid code).
Hypothesis R_res_json : forall rid b, respects R (res_json rid b).

Lemma respects_ret {A} (a : A) : respects R (ret a).
Proof using R_refl. intros st. apply R_refl. Qed.

Lemma respects_throw {A} e : respects R (@throw A e).
Proof using R_refl. intros st. apply R_refl. Qed.

Lemma respects_gets {A} (f : State -> A) : respects R (gets f).
Proof using R_refl. intros st. apply R_refl. Qed.

Lemma respects_bind {A B} (m : M A) (k : A -> M B) :
  respects R m -> (forall a, respects R (k a)) -> respects R (bind m k).
Proof using R_trans.
  intros Hm Hk st. unfold bind.
  specialize (Hm st). destruct (m st) as [[a|e] st']; simpl in *; [|done].
  eapply R_trans; [exact Hm | apply Hk].
Qed.

Lemma respects_try_catch {A} (body : M A) handler :
  respects R body -> (forall e, respects R (handler e)) ->
  respects R (try_catch body handler).
Proof using R_trans.
  intros Hb Hh st. unfold try_catch.
  specialize (Hb st). destruct (body st) as [[a|e] st']; simpl in *; [done|].
  eapply R_trans; [exact Hb | apply Hh].
Qed.

Ltac respects_tac :=
  repeat first
    [ apply respects_ret
    | apply respects_throw
    | apply respects_gets
    | apply respects_try_catch; [|intros ?]
    | apply respects_bind; [|intros ?]
    | match goal with |- respects _ (match ?x with _ => _ end) => destruct x end
    | solve [auto] ].

Lemma respects_on_pool call k : respects R (on_pool call k).
Proof using R_refl R_trans R_await. unfold on_pool. respects_tac. Qed.

Lemma respects_awaited r : respects R (awaited r).
Proof using R_refl. unfold awaited. respects_tac. Qed.

Lemma respects_rows0_count v : respects R (rows0_count v).
Proof using R_refl. unfold rows0_count. respects_tac. Qed.

Hint Resolve respects_on_pool respects_awaited respects_rows0_count : core.

Lemma respects_updateMemoMetrics_catch e :
  respects R (updateMemoMetrics_catch e).
Proof using R_refl R_trans R_console_error.
  unfold updateMemoMetrics_catch. respects_tac.
Qed.

Lemma respects_updateMemoMetrics : respects R updateMemoMetrics.
Proof using R_refl R_trans R_console_error R_await.
  unfold updateMemoMetrics.
  apply respects_try_catch; [auto | apply respects_updateMemoMetrics_catch].
Qed.

Lemma respects_updateMemoMetrics_resume r :
  respects R (updateMemoMetrics_resume r).
Proof using R_refl R_trans R_console_error R_activeMemos_set.
  unfold updateMemoMetrics_resume.
  apply respects_try_catch; [respects_tac | apply respects_updateMemoMetrics_catch].
Qed.

(** A floating async call. *)
Lemma respects_async_floating seg :
  respects R seg -> respects R (async Floating seg).
Proof using R_refl R_trans R_uncaught.
  intros Hs st. unfold async. specialize (Hs st).
  destruct (seg st) as [[[]|e] st']; simpl in *; try done.
  eapply R_trans; [exact Hs | apply (R_uncaught e)].
Qed.

(** The start-up call: its segments do not throw, so the chain runs the
    [then] callback and never the [catch] one. *)
Lemma respects_async_main seg :
  never_throws seg -> respects R seg -> respects R (async Main seg).
Proof using R_refl R_trans R_app_listen R_setInterval.
  intros Hn Hs st. unfold async. specialize (Hs st).
  destruct (Hn st) as [a Ha].
  destruct (seg st) as [c st']; simpl in *. subst c.
  destruct a; [|done].
  eapply R_trans; [exact Hs|].
  assert (Hthen : respects R main_then) by (unfold main_then; respects_tac).
  specialize (Hthen st'). unfold settle, try_catch.
  destruct (main_then_never_throws st') as [u Hu].
  destruct (main_then st') as [c st'']; simpl in *. by subst c.
Qed.

Lemma respects_async c seg :
  never_throws seg -> respects R seg -> respects R (async c seg).
Proof using R_refl R_trans R_app_listen R_setInterval R_uncaught.
  destruct c; [apply respects_async_main | intros _; apply respects_async_floating].
Qed.

Hint Resolve respects_updateMemoMetrics respects_updateMemoMetrics_resume
  respects_async_floating : core.

Lemma respects_initializeDatabase_catch e :
  respects R (initializeDatabase_catch e).
Proof using R_refl R_trans R_console_error R_setTimeout.
  unfold initializeDatabase_catch. respects_tac.
Qed.

Hint Resolve respects_initializeDatabase_catch : core.

Lemma respects_initializeDatabase raises c :
  respects R (initializeDatabase raises c).
Proof using R_refl R_trans R_console_error R_setTimeout R_console_log R_await
  R_set_pool.
  unfold initializeDatabase, createPool. respects_tac.
Qed.

Lemma respects_initializeDatabase_connected c r :
  respects R (initializeDatabase_connected c r).
Proof using R_refl R_trans R_console_error R_setTimeout R_await.
  unfold initializeDatabase_connected. respects_tac.
Qed.

Lemma respects_initializeDatabase_pinged r :
  respects R (initializeDatabase_pinged r).
Proof using R_refl R_trans R_console_error R_setTimeout R_console_log R_await
  R_uncaught.
  unfold initializeDatabase_pinged. respects_tac.
Qed.

(** The timer callbacks. *)
Lemma respects_callback cb raises : respects R (callback cb raises).
Proof using R_refl R_trans R_console_error R_setTimeout R_console_log R_await
  R_set_pool R_uncaught.
  destruct cb; simpl.
  - apply respects_async_floating, respects_initializeDatabase.
  - auto.
Qed.

(** The code after the awaits of the handlers. *)
Lemma respects_handler_resume k r :
  match k with
  | KInitGetConnection _ | KInitPing _ => True
  | _ => respects R (resume k r)
  end.
Proof using R_refl R_trans R_console_error R_await R_uncaught
  R_memoOperationsTotal_inc R_activeMemos_set R_res_status R_res_json.
  destruct k; simpl; try done; apply respects_async_floating.
  - auto.
  - unfold memo_stats_today, memo_stats_catch. respects_tac.
  - unfold memo_stats_total, memo_stats_catch. respects_tac.
  - unfold memo_stats_trend, memo_stats_catch. respects_tac.
  - unfold memos_resume, memos_catch. respects_tac.
  - unfold assignments_resume, assignments_catch. respects_tac.
  - unfold accept_resume, accept_catch. respects_tac.
  - unfold notifications_resume, notifications_catch. respects_tac.
Qed.

(** The code after any await. *)
Lemma respects_resume k r : respects R (resume k r).
Proof using R_refl R_trans R_console_error R_await R_uncaught
  R_memoOperationsTotal_inc R_activeMemos_set R_res_status R_res_json
  R_setTimeout R_console_log R_app_listen R_setInterval.
  pose proof (respects_handler_resume k r) as H.
  destruct k; try exact H; simpl.
  - apply respects_async;
      [apply initializeDatabase_connected_never_throws
      | apply respects_initializeDatabase_connected].
  - apply respects_async;
      [apply initializeDatabase_pinged_never_throws
      | apply respects_initializeDatabase_pinged].
Qed.

(** The handlers up to their first await. *)
Lemma respects_handler h rid : respects R (handler h rid).
Proof using R_refl R_trans R_console_error R_await
  R_dbConnectionsTotal_inc R_memoOperationsTotal_inc R_res_status R_res_json.
  destruct h; simpl.
  - unfold memo_stats, memo_stats_catch. respects_tac.
  - unfold memos, memos_catch. respects_tac.
  - unfold assignments, assignments_catch. respects_tac.
  - unfold accept, accept_catch. respects_tac.
  - unfold notifications, notifications_catch. respects_tac.
Qed.

(** The same for the event loop.  Besides running a callback, a step
    removes the settled promise or the fired timeout, or files the new
    request. *)
Hypothesis R_take :
  forall st p cf rest,
    take p (pending st) = Some (cf, rest) ->
    R st (with_pending rest (next_promise st) st).
Hypothesis R_fire :
  forall st i cb ms,
    timers st !! i = Some (Timeout cb ms) ->
    R st (with_timers (delete i (timers st)) st).
Hypothesis R_new_exchange :
  forall st rid method path,
    requests st !! rid = None ->
    R st (with_requests (<[rid := new_exchange method path]> (requests st)) st).
Hypothesis R_res_on_finish : forall rid start, respects R (res_on_finish rid start).
Hypothesis R_set_route :
  forall rid route, respects R (on_exchange rid (set_route route)).
Hypothesis R_set_finished : forall rid, respects R (on_exchange rid set_finished).
Hypothesis R_observe :
  forall method route status duration,
    respects R (httpRequestDuration_observe method route status duration None).

Lemma respects_run_callback m st : respects R m -> R st (run_callback m st).
Proof using R_trans R_uncaught.
  intros Hm. unfold run_callback. specialize (Hm st).
  destruct (m st) as [[u|e] st']; simpl in *; [done|].
  eapply R_trans; [exact Hm | apply (R_uncaught e)].
Qed.

Lemma respects_step_settle p r st : R st (step (EvSettle p r) st).
Proof using R_refl R_trans R_console_error R_await R_uncaught
  R_memoOperationsTotal_inc R_activeMemos_set R_res_status R_res_json
  R_setTimeout R_console_log R_app_listen R_setInterval R_take.
  unfold step. destruct (halted st); [done|].
  destruct (take p (pending st)) as [[[call k] rest]|] eqn:Ht; [|done].
  destruct (well_kinded call r); [|done].
  eapply R_trans; [eapply R_take, Ht|].
  apply respects_run_callback, respects_resume.
Qed.

Lemma respects_step_timer i raises st : R st (step (EvTimer i raises) st).
Proof using R_refl R_trans R_console_error R_setTimeout R_console_log R_await
  R_set_pool R_uncaught R_fire.
  unfold step. destruct (halted st); [done|].
  destruct (timers st !! i) as [[cb ms|cb ms]|] eqn:Ht; [| |done].
  - eapply R_trans; [eapply R_fire, Ht|].
    apply respects_run_callback, respects_callback.
  - apply respects_run_callback, respects_callback.
Qed.

Lemma respects_step_request rid method path now st :
  R st (step (EvRequest rid method path now) st).
Proof using R_refl R_trans R_uncaught R_new_exchange R_res_on_finish.
  unfold step. destruct (halted st); [done|].
  destruct (listening st); [|done].
  destruct (requests st !! rid) eqn:Hr; [done|].
  eapply R_trans; [eapply R_new_exchange, Hr|].
  apply respects_run_callback. unfold timing_middleware.
  apply respects_bind; [auto | intros; apply respects_ret].
Qed.

Lemma respects_step_route rid h st : R st (step (EvRoute rid h) st).
Proof using R_refl R_trans R_console_error R_await R_uncaught
  R_dbConnectionsTotal_inc R_memoOperationsTotal_inc R_res_status R_res_json
  R_set_route.
  unfold step. destruct (halted st); [done|].
  destruct (requests st !! rid) as [x|]; [|done].
  destruct (routable x); [|done].
  apply respects_run_callback, respects_bind; [auto|intros _].
  apply respects_async_floating, respects_handler.
Qed.

Lemma respects_step_respond rid route status st :
  R st (step (EvRespond rid route status) st).
Proof using R_refl R_trans R_uncaught R_res_status R_res_json R_set_route.
  unfold step. destruct (halted st); [done|].
  destruct (requests st !! rid) as [x|]; [|done].
  destruct (routable x); [|done].
  apply respects_run_callback.
  repeat (apply respects_bind; [auto|intros _]). auto.
Qed.

Lemma respects_step_finish rid now raised st :
  R st (step (EvFinish rid now raised) st).
Proof using R_refl R_trans R_uncaught R_set_finished R_observe.
  unfold step. destruct (halted st); [done|].
  destruct (requests st !! rid) as [x|]; [|done].
  destruct (res_body x); [|done].
  destruct (res_finished x); [done|].
  destruct (finish_listener x) as [start|]; [|done].
  apply respects_run_callback, respects_bind; [auto|intros _].
  unfold on_finish. destruct raised; [apply respects_throw | apply R_observe].
Qed.

End Respects.

(** *** db_connections_total counts handler invocations *)

Section Connections.
Local Open Scope Q_scope.

Ltac prim := intros; try intros ?; hnf; reflexivity.

Lemma same_connections_refl st : same_connections st st.
Proof. reflexivity. Qed.

Lemma same_connections_trans a b c :
  same_connections a b -> same_connections b c -> same_connections a c.
Proof. unfold same_connections. congruence. Qed.

(** No event but the invocation of a handler touches the counter. *)
Lemma connections_other_events ev st :
  (forall rid h, ev <> EvRoute rid h) ->
  dbConnectionsTotal (step ev st) = dbConnectionsTotal st.
Proof.
  intros Hev. destruct ev.
  - apply (respects_step_settle same_connections);
      first [apply same_connections_refl | apply same_connections_trans | prim].
  - apply (respects_step_timer same_connections);
      first [apply same_connections_refl | apply same_connections_trans | prim].
  - apply (respects_step_request same_connections);
      first [apply same_connections_refl | apply same_connections_trans | prim].
  - by destruct (Hev rid h).
  - apply (respects_step_respond same_connections);
      first [apply same_connections_refl | apply same_connections_trans | prim].
  - apply (respects_step_finish same_connections);
      first [apply same_connections_refl | apply same_connections_trans | prim].
Qed.

(** A handler starts with [dbConnectionsTotal.inc()] and nothing after it
    touches the counter, whether the try block or the catch block runs. *)
Lemma inc_then_same {A} (k : unit -> M A) handler st :
  (forall u, respects same_connections (k u)) ->
  (forall e, respects same_connections (handler e)) ->
  dbConnectionsTotal (snd (try_catch (bind dbConnectionsTotal_inc k) handler st))
  = <[∅ := connections st + 1]> (dbConnectionsTotal st).
Proof.
  intros Hk Hh. unfold try_catch, bind, dbConnectionsTotal_inc, counter_inc.
  change (increment ∅ 1 (dbConnectionsTotal st))
    with (<[∅ := connections st + 1]> (dbConnectionsTotal st), @None MetricError).
  cbv iota beta.
  set (st1 := with_dbConnectionsTotal _ st).
  specialize (Hk tt st1). unfold same_connections in Hk.
  destruct (k tt st1) as [[a|e] st2]; simpl in *; [done|].
  specialize (Hh e st2). unfold same_connections in Hh.
  by rewrite Hh.
Qed.

Lemma handler_increments h rid st :
  dbConnectionsTotal (snd (handler h rid st))
  = <[∅ := connections st + 1]> (dbConnectionsTotal st).
Proof.
  assert (Hc : forall rid' e,
             respects same_connections (memo_stats_catch rid' e)
             ∧ respects same_connections (memos_catch rid' e)
             ∧ respects same_connections (assignments_catch rid' e)
             ∧ respects same_connections (accept_catch rid' e)
             ∧ respects same_connections (notifications_catch rid' e)).
  { intros. repeat split; intros ?; reflexivity. }
  assert (Hp : forall call k, respects same_connections (on_pool call k)).
  { intros.
    apply (respects_on_pool _ same_connections_refl same_connections_trans). prim. }
  destruct h; simpl; apply inc_then_same;
    try (intros e; apply (Hc rid e));
    intros _; try apply Hp;
    (apply (respects_bind _ same_connections_trans); [prim | intros _; apply Hp]).
Qed.

Lemma connections_invocation rid h st :
  invokes (EvRoute rid h) st = true ->
  dbConnectionsTotal (step (EvRoute rid h) st)
  = <[∅ := connections st + 1]> (dbConnectionsTotal st).
Proof.
  unfold invokes, step. destruct (halted st); [done|].
  destruct (requests st !! rid) as [x|]; [|done].
  intros ->. unfold run_callback, bind, on_exchange, modify.
  set (st1 := with_requests _ st).
  change (dbConnectionsTotal st) with (dbConnectionsTotal st1).
  change (connections st) with (connections st1).
  rewrite <- (handler_increments h rid st1).
  unfold async. destruct (handler h rid st1) as [[[]|e] st2]; reflexivity.
Qed.

Lemma connections_no_invocation rid h st :
  invokes (EvRoute rid h) st = false -> step (EvRoute rid h) st = st.
Proof.
  unfold invokes, step. destruct (halted st); [done|].
  destruct (requests st !! rid) as [x|]; [|done]. by intros ->.
Qed.

Lemma connections_step ev st :
  connections (step ev st)
  = if invokes ev st then connections st + 1 else connections st.
Proof.
  unfold connections at 1.
  destruct ev;
    try (rewrite connections_other_events by done;
         unfold invokes; by destruct (halted st)).
  destruct (invokes (EvRoute rid h) st) eqn:Hi.
  - rewrite connections_invocation by done. apply series_value_insert.
  - by rewrite connections_no_invocation.
Qed.

Lemma connections_run tr st :
  connections (run tr st)
  == connections st + inject_Z (Z.of_nat (invocations tr st)).
Proof.
  revert st. induction tr as [|ev tr IH]; intros st; simpl.
  - unfold inject_Z. ring.
  - fold (run tr (step ev st)). rewrite IH, connections_step.
    destruct (invokes ev st).
    + rewrite Nat2Z.inj_succ, <- Z.add_1_l, inject_Z_plus. simpl. ring.
    + simpl. ring.
Qed.

(** C10. The router invoking an /api handler is the one event that changes
    db_connections_total, and it adds exactly one; the settlement of a
    query, which completes a handler with a result or with an error, leaves
    the counter alone.  So from start-up on the counter equals the number of
    handler invocations; no use of the pool enters into it. *)
Theorem dbConnectionsTotal_counts_invocations :
  (forall ev st,
     connections (step ev st)
     = if invokes ev st then connections st + 1 else connections st)
  ∧ (forall p r st, connections (step (EvSettle p r) st) = connections st)
  ∧ (forall bounds raises tr,
       connections (run tr (boot bounds raises))
       == inject_Z (Z.of_nat (invocations tr (boot bounds raises)))).
Proof.
  split; [exact connections_step|]. split.
  - intros p r st. rewrite connections_step.
    unfold invokes. by destruct (halted st).
  - intros bounds raises tr. rewrite connections_run.
    assert (H0 : connections (boot bounds raises) = 0).
    { unfold connections. 
      pose proof (respects_run_callback same_connections same_connections_trans) as Hrc.
      unfold boot.
      rewrite Hrc; [reflexivity | prim |].
      apply respects_async;
        first [ apply initializeDatabase_never_throws
              | apply respects_initializeDatabase
              | apply same_connections_refl | apply same_connections_trans
              | prim ];
        first [apply same_connections_refl | apply same_connections_trans | prim]. }
    rewrite H0. ring.
Qed.

End Connections.

(** *** Start-up *)

Section Startup.

Lemma run_app tr1 tr2 st : run (tr1 ++ tr2) st = run tr2 (run tr1 st).
Proof. unfold run. apply fold_left_app. Qed.

Lemma run_cons ev tr st : run (ev :: tr) st = run tr (step ev st).
Proof. reflexivity. Qed.

Lemma no_exit_refl st : no_exit st st.
Proof. by left. Qed.

Lemma no_exit_trans a b c : no_exit a b -> no_exit b c -> no_exit a c.
Proof.
  unfold no_exit. intros [Hab|[e He]] [Hbc|[e' He']].
  - left. congruence.
  - right. by exists e'.
  - right. exists e. congruence.
  - right. by exists e'.
Qed.

Ltac no_exit_prim :=
  intros; try intros ?; hnf;
  first [left; reflexivity | right; eexists; reflexivity].

Ltac no_exit_tac :=
  first [apply no_exit_refl | apply no_exit_trans | no_exit_prim].

(** No event makes the process exit: at most, an exception escapes. *)
Lemma no_exit_step ev st : no_exit st (step ev st).
Proof.
  destruct ev.
  - apply (respects_step_settle no_exit); no_exit_tac.
  - apply (respects_step_timer no_exit); no_exit_tac.
  - apply (respects_step_request no_exit); no_exit_tac.
  - apply (respects_step_route no_exit); no_exit_tac.
  - apply (respects_step_respond no_exit); no_exit_tac.
  - apply (respects_step_finish no_exit); no_exit_tac.
Qed.

Lemma no_exit_boot bounds raises : no_exit (initial bounds) (boot bounds raises).
Proof.
  unfold boot. apply respects_run_callback; [apply no_exit_trans | no_exit_prim |].
  apply respects_async;
    first [ apply initializeDatabase_never_throws
          | apply respects_initializeDatabase | no_exit_tac ];
    no_exit_tac.
Qed.

Lemma no_exit_never_exited st st' code :
  no_exit st st' -> halted st <> Some (Exit code) -> halted st' <> Some (Exit code).
Proof. intros [H|[e H]] Hne; rewrite H; [done | discriminate]. Qed.

Lemma never_exited_run tr st code :
  halted st <> Some (Exit code) -> halted (run tr st) <> Some (Exit code).
Proof.
  revert st. induction tr as [|ev tr IH]; intros st Hne; [done|].
  rewrite run_cons. apply IH.
  eapply no_exit_never_exited; [apply no_exit_step | done].
Qed.

(** Once serving, always serving: nothing closes the server or clears the
    interval, and firing a timeout removes that timeout only. *)
Lemma in_delete_other {A} (x y : A) (l : list A) i :
  In x l -> l !! i = Some y -> x <> y -> In x (delete i l).
Proof.
  revert i. induction l as [|a l IH]; intros i Hin Hi Hne; [done|].
  destruct i as [|i]; simpl in *.
  - destruct Hin as [->|Hin]; [congruence | done].
  - destruct Hin as [->|Hin]; [by left | right; by eapply IH].
Qed.

Lemma keeps_serving_refl st : keeps_serving st st.
Proof. by intros H. Qed.

Lemma keeps_serving_trans a b c :
  keeps_serving a b -> keeps_serving b c -> keeps_serving a c.
Proof. unfold keeps_serving. auto. Qed.

Ltac keeps_serving_prim :=
  intros; try intros ?; hnf; unfold serving; simpl;
  first
    [ done
    | intros [? ?]; split; [done | apply in_or_app; by left]
    | intros [? ?]; done ].

Lemma keeps_serving_fire st i cb ms :
  timers st !! i = Some (Timeout cb ms) ->
  keeps_serving st (with_timers (delete i (timers st)) st).
Proof.
  intros Hi [Hl Hin]. split; [done|]. simpl.
  eapply in_delete_other; [exact Hin | exact Hi | discriminate].
Qed.

Ltac keeps_serving_tac :=
  first [ apply keeps_serving_refl | apply keeps_serving_trans
        | apply keeps_serving_fire | keeps_serving_prim ].

Lemma serving_step ev st : serving st -> serving (step ev st).
Proof.
  change (keeps_serving st (step ev st)). destruct ev.
  - apply (respects_step_settle keeps_serving); keeps_serving_tac.
  - apply (respects_step_timer keeps_serving); keeps_serving_tac.
  - apply (respects_step_request keeps_serving); keeps_serving_tac.
  - apply (respects_step_route keeps_serving); keeps_serving_tac.
  - apply (respects_step_respond keeps_serving); keeps_serving_tac.
  - apply (respects_step_finish keeps_serving); keeps_serving_tac.
Qed.

(** Settling a promise removes exactly its entry from the pending list. *)
Lemma take_perm p l cf rest :
  take p l = Some (cf, rest) -> l ≡ₚ (p, cf) :: rest.
Proof.
  revert rest. induction l as [|[q cf'] l IH]; intros rest; simpl; [done|].
  destruct (Nat.eqb_spec p q) as [->|Hne].
  - by intros [= -> ->].
  - destruct (take p l) as [[cf'' rest']|]; [|done].
    intros [= -> <-]. rewrite (IH rest' eq_refl). apply Permutation_swap.
Qed.

Lemma take_existsb f p l cf rest :
  take p l = Some (cf, rest) -> existsb f l = f (p, cf) || existsb f rest.
Proof.
  revert rest. induction l as [|[q cf'] l IH]; intros rest; simpl; [done|].
  destruct (Nat.eqb_spec p q) as [->|Hne].
  - by intros [= -> ->].
  - destruct (take p l) as [[cf'' rest']|]; [|done].
    intros [= -> <-]. rewrite (IH rest' eq_refl). simpl.
    by destruct (f (q, cf')), (f (p, cf)).
Qed.

(** The start-up call goes on, or ends with the server started: its
    promise resolves whichever way the connection test went. *)
Lemma resume_main_connected r st :
  let st' := run_callback (resume (KInitGetConnection Main) r) st in
  starting st' = true ∨ serving st'.
Proof.
  destruct r as [v|e]; cbv zeta.
  - left. unfold starting. cbn. rewrite existsb_app. simpl. apply orb_true_r.
  - right. split; cbn; [done|]. apply in_or_app. right. by left.
Qed.

Lemma resume_main_pinged r st :
  serving (run_callback (resume (KInitPing Main) r) st).
Proof.
  destruct r as [v|e].
  - unfold run_callback, resume, async, initializeDatabase_pinged, try_catch,
      bind, awaited, ret, console_log, modify.
    unfold async, updateMemoMetrics, try_catch, on_pool, bind, gets.
    cbn [pool with_console].
    destruct (pool st); cbn; (split; [done | apply in_or_app; right; by left]).
  - split; cbn; [done|]. apply in_or_app. right. by left.
Qed.

Lemma keeps_starting_refl st : keeps_starting st st.
Proof. by intros H. Qed.

Lemma keeps_starting_trans a b c :
  keeps_starting a b -> keeps_starting b c -> keeps_starting a c.
Proof. unfold keeps_starting. auto. Qed.

Ltac keeps_starting_prim :=
  intros; try intros ?; hnf; unfold starting; simpl;
  first [ done | rewrite existsb_app; intros ->; done ].

Ltac keeps_starting_tac :=
  first [ apply keeps_starting_refl | apply keeps_starting_trans
        | keeps_starting_prim ].

Lemma keeps_starting_resume k r : respects keeps_starting (resume k r).
Proof. apply respects_resume; keeps_starting_tac. Qed.

Lemma keeps_starting_uncaught e st :
  keeps_starting st (with_halted (Some (Uncaught e)) st).
Proof. by intros H. Qed.

Lemma starting_step ev st :
  starting st = true -> starting (step ev st) = true ∨ serving (step ev st).
Proof.
  intros Hs. destruct ev.
  - unfold step. destruct (halted st); [by left|].
    destruct (take p (pending st)) as [[[call k] rest]|] eqn:Ht; [|by left].
    destruct (well_kinded call r); [|by left].
    destruct (is_main (p, (call, k))) eqn:Hm.
    + destruct k as [[]|[]| | | | | | | |]; try discriminate Hm.
      * apply resume_main_connected.
      * right. apply resume_main_pinged.
    + left.
      apply (respects_run_callback keeps_starting keeps_starting_trans
               keeps_starting_uncaught _ _ (keeps_starting_resume k r)).
      unfold starting in *. simpl.
      rewrite (take_existsb is_main _ _ _ _ Ht), Hm in Hs. exact Hs.
  - left. revert Hs. change (keeps_starting st (step (EvTimer i createPool_raises) st)).
    apply (respects_step_timer keeps_starting); keeps_starting_tac.
  - left. revert Hs. change (keeps_starting st (step (EvRequest rid method path now) st)).
    apply (respects_step_request keeps_starting); keeps_starting_tac.
  - left. revert Hs. change (keeps_starting st (step (EvRoute rid h) st)).
    apply (respects_step_route keeps_starting); keeps_starting_tac.
  - left. revert Hs. change (keeps_starting st (step (EvRespond rid route status) st)).
    apply (respects_step_respond keeps_starting); keeps_starting_tac.
  - left. revert Hs. change (keeps_starting st (step (EvFinish rid now raised) st)).
    apply (respects_step_finish keeps_starting); keeps_starting_tac.
Qed.

Lemma starting_or_serving_run tr st :
  starting st = true ∨ serving st ->
  starting (run tr st) = true ∨ serving (run tr st).
Proof.
  revert st. induction tr as [|ev tr IH]; intros st H; [done|].
  rewrite run_cons. apply IH. destruct H as [H|H].
  - by apply starting_step.
  - right. by apply serving_step.
Qed.

Lemma boot_starting_or_serving bounds raises :
  starting (boot bounds raises) = true ∨ serving (boot bounds raises).
Proof.
  destruct raises as [e|].
  - right. split; cbn; [done|]. right. by left.
  - left. reflexivity.
Qed.

(** C8. initializeDatabase never rejects.  Each of its segments ends
    normally; an error at pool creation, at getConnection or at the ping is
    caught by the catch block, which logs it, arms the retry timeout of
    5000 ms and returns, so the promise resolves.  Hence, from start-up on,
    the process never exits through the failure branch of the start-up
    chain, and either the start-up call still awaits the driver or the
    server listens and the 30-second timer is armed.  The latter is reached
    whether pool creation, the connection or the ping fail or succeed: after
    each failure the timers are the retry and the refresh interval, and the
    retry, when it fires, runs initializeDatabase again; after a success
    there is the refresh interval only. *)
Theorem initializeDatabase_never_rejects :
  (forall raises c, never_throws (initializeDatabase raises c))
  ∧ (forall c r, never_throws (initializeDatabase_connected c r))
  ∧ (forall r, never_throws (initializeDatabase_pinged r))
  ∧ (forall e c st,
       answered_by_retry e st (initializeDatabase (Some e) c st))
  ∧ (forall e c st,
       answered_by_retry e st (initializeDatabase_connected c (Rejected e) st))
  ∧ (forall e st,
       answered_by_retry e st (initializeDatabase_pinged (Rejected e) st))
  ∧ (forall bounds raises tr code,
       halted (run tr (boot bounds raises)) <> Some (Exit code))
  ∧ (forall bounds raises tr,
       starting (run tr (boot bounds raises)) = true
       ∨ serving (run tr (boot bounds raises)))
  ∧ (forall bounds e, serving (boot bounds (Some e)))
  ∧ (forall bounds e,
       serving (run [EvSettle 0 (Rejected e)] (boot bounds None)))
  ∧ (forall bounds e,
       serving (run [EvSettle 0 (Fulfilled VConnection); EvSettle 1 (Rejected e)]
                    (boot bounds None)))
  ∧ (forall bounds,
       serving (run [EvSettle 0 (Fulfilled VConnection);
                     EvSettle 1 (Fulfilled VPong)]
                    (boot bounds None)))
  ∧ (forall bounds e,
       let st := boot bounds (Some e) in
       timers st = [retry_timer; refresh_timer]
       ∧ console st = [LogError "Database connection error:" e]
       ∧ pending st = [])
  ∧ (forall bounds e,
       let st := run [EvSettle 0 (Rejected e)] (boot bounds None) in
       timers st = [retry_timer; refresh_timer]
       ∧ console st = [LogInfo "Database connection pool created";
                       LogError "Database connection error:" e]
       ∧ pending st = [])
  ∧ (forall bounds e,
       let st := run [EvSettle 0 (Fulfilled VConnection); EvSettle 1 (Rejected e)]
                     (boot bounds None) in
       timers st = [retry_timer; refresh_timer]
       ∧ console st = [LogInfo "Database connection pool created";
                       LogError "Database connection error:" e]
       ∧ pending st = [])
  ∧ (forall bounds,
       let st := run [EvSettle 0 (Fulfilled VConnection);
                      EvSettle 1 (Fulfilled VPong)]
                     (boot bounds None) in
       timers st = [refresh_timer]
       ∧ console st = [LogInfo "Database connection pool created";
                       LogInfo "Database connection successful"]
       ∧ pending st = [(2, refresh)])
  ∧ (forall bounds e,
       let st := run [EvTimer 0 None] (boot bounds (Some e)) in
       timers st = [refresh_timer]
       ∧ pool st = Some dbConfig
       ∧ pending st = [(0, (GetConnection, KInitGetConnection Floating))]).
Proof.
  split; [exact initializeDatabase_never_throws|].
  split; [exact initializeDatabase_connected_never_throws|].
  split; [exact initializeDatabase_pinged_never_throws|].
  split; [by intros e c st|].
  split; [by intros e c st|].
  split; [by intros e st|].
  split.
  { intros bounds raises tr code. apply never_exited_run.
    eapply no_exit_never_exited; [apply no_exit_boot | discriminate]. }
  split.
  { intros. apply starting_or_serving_run, boot_starting_or_serving. }
  repeat match goal with |- _ ∧ _ => split end;
    intros; cbv zeta;
    first [ by repeat match goal with |- _ ∧ _ => split end
          | split; cbn; auto ].
Qed.

End Startup.

(** *** Promise identifiers are fresh *)

Section Fresh.

Lemma stays_fresh_refl st : stays_fresh st st.
Proof. by intros H. Qed.

Lemma stays_fresh_trans a b c :
  stays_fresh a b -> stays_fresh b c -> stays_fresh a c.
Proof. unfold stays_fresh. auto. Qed.

Lemma stays_fresh_await call k : respects stays_fresh (await call k).
Proof.
  intros st Hf. unfold fresh in *. simpl.
  apply Forall_app. split.
  - eapply Forall_impl; [exact Hf|]. simpl. lia.
  - repeat constructor.
Qed.

Lemma stays_fresh_take st p cf rest :
  take p (pending st) = Some (cf, rest) ->
  stays_fresh st (with_pending rest (next_promise st) st).
Proof.
  intros Ht Hf. unfold fresh in *. simpl.
  rewrite (take_perm _ _ _ _ Ht) in Hf. by inversion Hf.
Qed.

Ltac stays_fresh_tac :=
  first [ apply stays_fresh_refl | apply stays_fresh_trans
        | apply stays_fresh_await | apply stays_fresh_take
        | intros; try intros ?; hnf; done ].

Lemma fresh_step ev st : fresh st -> fresh (step ev st).
Proof.
  change (stays_fresh st (step ev st)). destruct ev.
  - apply (respects_step_settle stays_fresh); stays_fresh_tac.
  - apply (respects_step_timer stays_fresh); stays_fresh_tac.
  - apply (respects_step_request stays_fresh); stays_fresh_tac.
  - apply (respects_step_route stays_fresh); stays_fresh_tac.
  - apply (respects_step_respond stays_fresh); stays_fresh_tac.
  - apply (respects_step_finish stays_fresh); stays_fresh_tac.
Qed.

Lemma fresh_run tr st : fresh st -> fresh (run tr st).
Proof.
  revert st. induction tr as [|ev tr IH]; intros st H; [done|].
  rewrite run_cons. by apply IH, fresh_step.
Qed.

Lemma fresh_boot bounds raises : fresh (boot bounds raises).
Proof. destruct raises; cbn; repeat constructor. Qed.

(** Every state the process can reach is fresh. *)
Lemma fresh_reachable bounds raises tr : fresh (run tr (boot bounds raises)).
Proof. apply fresh_run, fresh_boot. Qed.

(** The promise created last is found under its identifier. *)
Lemma take_fresh l n cf :
  Forall (fun q : nat * (DriverCall * Frame) => fst q < n) l ->
  take n (l ++ [(n, cf)]) = Some (cf, l).
Proof.
  induction 1 as [|[q cf'] l Hq Hl IH]; simpl.
  - by rewrite Nat.eqb_refl.
  - simpl in Hq. destruct (Nat.eqb_spec n q) as [->|Hne]; [lia|].
    by rewrite IH.
Qed.

End Fresh.

(** *** The periodic refresher *)

Section Refresher.
Local Open Scope Z_scope.

(** A tick of the interval timer, the pool existing: updateMemoMetrics
    sends its query and parks on it. *)
Lemma tick_step st i ms raises pl :
  halted st = None ->
  timers st !! i = Some (Interval CbUpdateMemoMetrics ms) ->
  pool st = Some pl ->
  step (EvTimer i raises) st
  = with_pending (pending st ++ [(next_promise st, refresh)])
                 (S (next_promise st)) st.
Proof.
  intros Hh Ht Hp. unfold step. rewrite Hh, Ht.
  unfold run_callback, callback, async, updateMemoMetrics, try_catch, on_pool,
    bind, gets.
  by rewrite Hp.
Qed.

(** A tick while [pool] is undefined: the TypeError is caught and logged. *)
Lemma tick_step_without_pool st i ms raises :
  halted st = None ->
  timers st !! i = Some (Interval CbUpdateMemoMetrics ms) ->
  pool st = None ->
  step (EvTimer i raises) st
  = with_console
      (console st ++ [LogError "Error updating memo metrics:"
                        (TypeError "Cannot read properties of undefined")]) st.
Proof.
  intros Hh Ht Hp. unfold step. rewrite Hh, Ht.
  unfold run_callback, callback, async, updateMemoMetrics, try_catch, on_pool,
    bind, gets.
  by rewrite Hp.
Qed.

(** The query of a refresh is answered: the gauge is set to the count. *)
Lemma refresh_fulfilled st p rest n :
  halted st = None ->
  take p (pending st) = Some (refresh, rest) ->
  step (EvSettle p (Fulfilled (VCount n))) st
  = with_activeMemos (set ∅ (inject_Z n) (activeMemos st))
                     (with_pending rest (next_promise st) st).
Proof. intros Hh Ht. unfold step. by rewrite Hh, Ht. Qed.

(** The query of a refresh fails: the error is logged, nothing else. *)
Lemma refresh_rejected st p rest e :
  halted st = None ->
  take p (pending st) = Some (refresh, rest) ->
  step (EvSettle p (Rejected e)) st
  = with_console (console st ++ [LogError "Error updating memo metrics:" e])
                 (with_pending rest (next_promise st) st).
Proof. intros Hh Ht. unfold step. by rewrite Hh, Ht. Qed.

Lemma refreshes_in_flight_issue st :
  refreshes_in_flight
    (with_pending (pending st ++ [(next_promise st, refresh)])
                  (S (next_promise st)) st)
  = S (refreshes_in_flight st).
Proof.
  unfold refreshes_in_flight. simpl.
  rewrite filter_app, length_app. simpl. lia.
Qed.

(** The single-flight reading of the refresher fails.  After a start-up
    whose first refresh was answered, a tick sends a query; the next tick
    fires while that query is unanswered and sends a second one, so that two
    refreshes are in flight. *)
Lemma tick_during_refresh_is_not_skipped :
  let st := run [EvSettle 0 (Fulfilled VConnection);
                 EvSettle 1 (Fulfilled VPong);
                 EvSettle 2 (Fulfilled (VCount 3));
                 EvTimer 0 None]
                (boot [] None) in
  refreshes_in_flight st = 1%nat
  ∧ pending (step (EvTimer 0 None) st) = [(3%nat, refresh); (4%nat, refresh)]
  ∧ ¬ (refreshes_in_flight (step (EvTimer 0 None) st) <= 1)%nat.
Proof.
  split; [reflexivity|]. split; [reflexivity|].
  vm_compute. lia.
Qed.

(** C1, amended. Every tick of the 30-second timer runs updateMemoMetrics,
    which (the pool existing) sends a new COUNT query at once, whatever
    refreshes are still in flight: the tick is not skipped, the number of
    refreshes in flight grows by one, and the timer stays armed. *)
Theorem tick_always_refreshes st i raises pl :
  halted st = None ->
  timers st !! i = Some refresh_timer ->
  pool st = Some pl ->
  let st' := step (EvTimer i raises) st in
  pending st' = pending st ++ [(next_promise st, refresh)]
  ∧ refreshes_in_flight st' = S (refreshes_in_flight st)
  ∧ timers st' = timers st
  ∧ halted st' = None.
Proof.
  intros Hh Ht Hp. cbv zeta. rewrite (tick_step st i _ raises pl Hh Ht Hp).
  split; [done|]. split; [apply refreshes_in_flight_issue|]. by split.
Qed.

Lemma tick_always_refreshes_witness :
  let st := run [EvSettle 0 (Fulfilled VConnection);
                 EvSettle 1 (Fulfilled VPong)]
                (boot [] None) in
  let st' := step (EvTimer 0 None) st in
  pending st' = pending st ++ [(next_promise st, refresh)]
  ∧ refreshes_in_flight st' = S (refreshes_in_flight st)
  ∧ timers st' = timers st
  ∧ halted st' = None.
Proof.
  apply (tick_always_refreshes _ 0%nat None dbConfig); reflexivity.
Defined.

(** C3. When the COUNT query of a refresh fails, the error is logged and
    goes no further, the gauge keeps the series it had, and the timer stays
    armed with its 30-second period; the next tick sends the query again and,
    when that one is answered, the gauge shows the new count. *)
Theorem failed_refresh_keeps_gauge st p rest e i raises pl n :
  halted st = None ->
  fresh st ->
  take p (pending st) = Some (refresh, rest) ->
  timers st !! i = Some refresh_timer ->
  pool st = Some pl ->
  let failed := step (EvSettle p (Rejected e)) st in
  let ticked := step (EvTimer i raises) failed in
  let refreshed :=
    step (EvSettle (next_promise failed) (Fulfilled (VCount n))) ticked in
  activeMemos failed = activeMemos st
  ∧ console failed
    = console st ++ [LogError "Error updating memo metrics:" e]
  ∧ halted failed = None
  ∧ timers failed = timers st
  ∧ pending ticked = rest ++ [(next_promise st, refresh)]
  ∧ timers ticked = timers st
  ∧ gauge refreshed = inject_Z n
  ∧ timers refreshed = timers st
  ∧ halted refreshed = None.
Proof.
  intros Hh Hf Ht Hi Hp. cbv zeta.
  rewrite (refresh_rejected st p rest e Hh Ht).
  set (failed := with_console _ _).
  rewrite (tick_step failed i _ raises pl Hh Hi Hp).
  set (ticked := with_pending _ _ failed).
  assert (Hrest : Forall (fun q : nat * (DriverCall * Frame) =>
                            (fst q < next_promise st)%nat) rest).
  { unfold fresh in Hf. rewrite (take_perm _ _ _ _ Ht) in Hf. by inversion Hf. }
  change (next_promise failed) with (next_promise st).
  rewrite (refresh_fulfilled ticked (next_promise st) rest n Hh
             (take_fresh rest (next_promise st) refresh Hrest)).
  repeat split; try done.
  unfold gauge. simpl. apply series_value_insert.
Qed.

Lemma failed_refresh_keeps_gauge_witness :
  let st := run [EvSettle 0 (Fulfilled VConnection);
                 EvSettle 1 (Fulfilled VPong);
                 EvSettle 2 (Fulfilled (VCount 3));
                 EvTimer 0 None]
                (boot [] None) in
  let e := DriverError "ECONNRESET" in
  let failed := step (EvSettle 3 (Rejected e)) st in
  let ticked := step (EvTimer 0 None) failed in
  let refreshed :=
    step (EvSettle (next_promise failed) (Fulfilled (VCount 5))) ticked in
  gauge st = inject_Z 3
  ∧ activeMemos failed = activeMemos st
  ∧ console failed
    = console st ++ [LogError "Error updating memo metrics:" e]
  ∧ halted failed = None
  ∧ timers failed = timers st
  ∧ pending ticked = [] ++ [(next_promise st, refresh)]
  ∧ timers ticked = timers st
  ∧ gauge refreshed = inject_Z 5
  ∧ timers refreshed = timers st
  ∧ halted refreshed = None.
Proof.
  split; [reflexivity|].
  apply (failed_refresh_keeps_gauge _ 3%nat [] _ 0%nat None dbConfig 5).
  - reflexivity.
  - vm_compute. repeat constructor.
  - reflexivity.
  - reflexivity.
  - reflexivity.
Defined.

(** The start-up reading of the refresher fails when the first connection
    test does: the start-up chain completes, the server listens and the
    timer is armed, but updateMemoMetrics has not been called: no query is
    pending, nothing was logged by it and the gauge was never set. *)
Lemma startup_without_refresh :
  let st := run [EvSettle 0 (Rejected (DriverError "ECONNREFUSED"))]
                (boot [] None) in
  listening st = true
  ∧ timers st = [Timeout CbInitializeDatabase 5000; refresh_timer]
  ∧ starting st = false
  ∧ refreshes_in_flight st = 0%nat
  ∧ pending st = []
  ∧ activeMemos st = ∅
  ∧ console st = [LogInfo "Database connection pool created";
                  LogError "Database connection error:"
                           (DriverError "ECONNREFUSED")].
Proof. repeat split; reflexivity. Qed.

(** C4, amended. When the connection test of start-up succeeds,
    initializeDatabase calls updateMemoMetrics once, before the start-up
    chain arms the timer with a period of 30000 ms; every tick of that timer
    sends the COUNT query on memos with status sent; and when the query is
    answered the gauge is set to exactly the count it returned. *)
Theorem refresher_runs_and_sets_gauge bounds st i raises pl memos :
  halted st = None ->
  fresh st ->
  timers st !! i = Some refresh_timer ->
  pool st = Some pl ->
  let started := run [EvSettle 0 (Fulfilled VConnection);
                      EvSettle 1 (Fulfilled VPong)]
                     (boot bounds None) in
  let ticked := step (EvTimer i raises) st in
  let refreshed :=
    step (EvSettle (next_promise st)
                   (Fulfilled (VCount (select_count_sent memos)))) ticked in
  pending started = [(2%nat, refresh)]
  ∧ timers started = [Interval CbUpdateMemoMetrics 30000]
  ∧ listening started = true
  ∧ pending ticked = pending st ++ [(next_promise st, refresh)]
  ∧ timers ticked = timers st
  ∧ gauge refreshed = inject_Z (select_count_sent memos)
  ∧ pending refreshed = pending st.
Proof.
  intros Hh Hf Hi Hp. cbv zeta.
  split; [reflexivity|]. split; [reflexivity|]. split; [reflexivity|].
  rewrite (tick_step st i _ raises pl Hh Hi Hp).
  set (ticked := with_pending _ _ st).
  rewrite (refresh_fulfilled ticked (next_promise st) (pending st) _ Hh
             (take_fresh (pending st) (next_promise st) refresh Hf)).
  repeat split; try done.
  unfold gauge. simpl. apply series_value_insert.
Qed.

Lemma refresher_runs_and_sets_gauge_witness :
  let memos := [ {| memo_id := 1; memo_status := sent |};
                 {| memo_id := 2; memo_status := draft |};
                 {| memo_id := 3; memo_status := sent |} ] in
  let st := run [EvSettle 0 (Fulfilled VConnection);
                 EvSettle 1 (Fulfilled VPong);
                 EvSettle 2 (Fulfilled (VCount 0))]
                (boot [] None) in
  select_count_sent memos = 2
  ∧ (let started := run [EvSettle 0 (Fulfilled VConnection);
                         EvSettle 1 (Fulfilled VPong)]
                        (boot [] None) in
     let ticked := step (EvTimer 0 None) st in
     let refreshed :=
       step (EvSettle (next_promise st)
                      (Fulfilled (VCount (select_count_sent memos)))) ticked in
     pending started = [(2%nat, refresh)]
     ∧ timers started = [Interval CbUpdateMemoMetrics 30000]
     ∧ listening started = true
     ∧ pending ticked = pending st ++ [(next_promise st, refresh)]
     ∧ timers ticked = timers st
     ∧ gauge refreshed = inject_Z (select_count_sent memos)
     ∧ pending refreshed = pending st).
Proof.
  intros memos st. split; [reflexivity|].
  apply (refresher_runs_and_sets_gauge [] st 0%nat None dbConfig memos).
  - reflexivity.
  - vm_compute. constructor.
  - reflexivity.
  - reflexivity.
Defined.

(** What the accept handler does when the UPDATE changed a row. *)
Lemma accept_fulfilled st p rest rid a n pl :
  halted st = None ->
  take p (pending st) = Some ((Execute (SqlAccept a), KAccept rid), rest) ->
  0 < n ->
  pool st = Some pl ->
  step (EvSettle p (Fulfilled (VResult n))) st
  = with_pending (rest ++ [(next_promise st, refresh)]) (S (next_promise st))
      (snd (res_json rid (BMessage "Memo accepted successfully")
         (snd (memoOperationsTotal_inc "accept_memo" "success"
            (with_pending rest (next_promise st) st))))).
Proof.
  intros Hh Ht Hn Hp. unfold step. rewrite Hh, Ht. simpl well_kinded. cbv iota.
  unfold run_callback, resume, accept_resume, async, try_catch, bind, awaited, ret.
  unfold affectedRows_positive. apply Z.ltb_lt in Hn. rewrite Hn.
  unfold updateMemoMetrics, try_catch, on_pool, bind, gets.
  simpl. rewrite Hp. reflexivity.
Qed.

(** What it does when the UPDATE changed none: no refresh. *)
Lemma accept_not_found st p rest rid a n :
  halted st = None ->
  take p (pending st) = Some ((Execute (SqlAccept a), KAccept rid), rest) ->
  n <= 0 ->
  pending (step (EvSettle p (Fulfilled (VResult n))) st) = rest.
Proof.
  intros Hh Ht Hn. unfold step. rewrite Hh, Ht. simpl well_kinded. cbv iota.
  unfold run_callback, resume, accept_resume, async, try_catch, bind, awaited, ret.
  unfold affectedRows_positive. apply Z.ltb_ge in Hn. rewrite Hn.
  reflexivity.
Qed.

(** C9. When the UPDATE of the accept endpoint affects at least one row,
    the handler answers 200 and calls updateMemoMetrics in the same
    callback: a COUNT query is sent at once, no timer being involved, and
    when it is answered the gauge is set to its count. *)
Theorem accept_refreshes_gauge st p rest rid a n pl x m :
  halted st = None ->
  fresh st ->
  take p (pending st) = Some ((Execute (SqlAccept a), KAccept rid), rest) ->
  0 < n ->
  pool st = Some pl ->
  requests st !! rid = Some x ->
  let accepted := step (EvSettle p (Fulfilled (VResult n))) st in
  let refreshed :=
    step (EvSettle (next_promise st) (Fulfilled (VCount m))) accepted in
  pending accepted = rest ++ [(next_promise st, refresh)]
  ∧ refreshes_in_flight accepted = S (length (filter is_refresh rest))
  ∧ timers accepted = timers st
  ∧ (exists x', requests accepted !! rid = Some x'
                ∧ res_statusCode x' = res_statusCode x
                ∧ res_body x' = Some (BMessage "Memo accepted successfully"))
  ∧ gauge refreshed = inject_Z m.
Proof.
  intros Hh Hf Ht Hn Hp Hx. cbv zeta.
  rewrite (accept_fulfilled st p rest rid a n pl Hh Ht Hn Hp).
  set (accepted := with_pending _ _ _).
  assert (Hrest : Forall (fun q : nat * (DriverCall * Frame) =>
                            (fst q < next_promise st)%nat) rest).
  { unfold fresh in Hf. rewrite (take_perm _ _ _ _ Ht) in Hf. by inversion Hf. }
  split; [done|]. split.
  { unfold refreshes_in_flight. simpl.
    rewrite filter_app, length_app. simpl. lia. }
  split; [done|]. split.
  { simpl. rewrite lookup_alter_eq, Hx. simpl. by eexists. }
  rewrite (refresh_fulfilled accepted (next_promise st) rest m Hh
             (take_fresh rest (next_promise st) refresh Hrest)).
  unfold gauge. simpl. apply series_value_insert.
Qed.

Lemma accept_refreshes_gauge_witness :
  let st := run [EvSettle 0 (Fulfilled VConnection);
                 EvSettle 1 (Fulfilled VPong);
                 EvSettle 2 (Fulfilled (VCount 3));
                 EvRequest 7 "PUT" "/api/assignments/4/accept" 1000;
                 EvRoute 7 (PutAccept "4")]
                (boot [] None) in
  let x := {| req_method := "PUT";
              req_path := "/api/assignments/4/accept";
              req_route := Some "/api/assignments/:assignmentId/accept";
              finish_listener := Some 1000;
              res_statusCode := 200;
              res_body := None;
              res_finished := false |} in
  let accepted := step (EvSettle 3 (Fulfilled (VResult 1))) st in
  let refreshed :=
    step (EvSettle (next_promise st) (Fulfilled (VCount 2))) accepted in
  pending accepted = [] ++ [(next_promise st, refresh)]
  ∧ refreshes_in_flight accepted = S (length (filter is_refresh []))
  ∧ timers accepted = timers st
  ∧ (exists x', requests accepted !! 7%nat = Some x'
                ∧ res_statusCode x' = res_statusCode x
                ∧ res_body x' = Some (BMessage "Memo accepted successfully"))
  ∧ gauge refreshed = inject_Z 2.
Proof.
  intros st x.
  apply (accept_refreshes_gauge st 3%nat [] 7%nat "4" 1 dbConfig x 2).
  - reflexivity.
  - vm_compute. repeat constructor.
  - vm_compute. reflexivity.
  - reflexivity.
  - reflexivity.
  - vm_compute. reflexivity.
Defined.

End Refresher.

(** *** Request timing *)

Section Timing.
Local Open Scope Z_scope.

Variables (rid : nat) (method path : string) (start : Z).

Lemma keeps_timed_refl st : keeps_timed rid method path start st st.
Proof. by intros H. Qed.

Lemma keeps_timed_trans a b c :
  keeps_timed rid method path start a b ->
  keeps_timed rid method path start b c ->
  keeps_timed rid method path start a c.
Proof. unfold keeps_timed. auto. Qed.

(** The response methods and the router leave the request line and the
    listener of an exchange alone. *)
Lemma keeps_timed_on_exchange rid' f :
  (forall x, req_method (f x) = req_method x
             ∧ req_path (f x) = req_path x
             ∧ finish_listener (f x) = finish_listener x) ->
  respects (keeps_timed rid method path start) (on_exchange rid' f).
Proof.
  intros Hf st (x & Hx & Hm & Hp & Hl). unfold timed. simpl.
  destruct (decide (rid' = rid)) as [->|Hne].
  - exists (f x). rewrite lookup_alter_eq, Hx. simpl.
    destruct (Hf x) as (-> & -> & ->). done.
  - exists x. by rewrite lookup_alter_ne.
Qed.

Lemma keeps_timed_new_exchange st rid' method' path' :
  requests st !! rid' = None ->
  keeps_timed rid method path start st
    (with_requests (<[rid' := new_exchange method' path']> (requests st)) st).
Proof.
  intros Hnone (x & Hx & H). exists x. simpl.
  rewrite lookup_insert_ne; [done | congruence].
Qed.

Ltac keeps_timed_tac :=
  first [ apply keeps_timed_refl | apply keeps_timed_trans
        | apply keeps_timed_new_exchange
        | intros; apply keeps_timed_on_exchange; by intros []
        | intros; try intros ?; hnf; done ].

(** No later event changes the method, the path or the start time under
    which a request was filed. *)
Lemma timed_step ev st :
  timed rid method path start st -> timed rid method path start (step ev st).
Proof.
  change (keeps_timed rid method path start st (step ev st)). destruct ev.
  - apply (respects_step_settle (keeps_timed rid method path start));
      keeps_timed_tac.
  - apply (respects_step_timer (keeps_timed rid method path start));
      keeps_timed_tac.
  - intros Ht. unfold step. destruct (halted st); [done|].
    destruct (listening st); [|done].
    destruct (requests st !! rid0) eqn:Hr; [done|].
    destruct Ht as (x & Hx & H). exists x. cbn.
    rewrite lookup_alter_ne, lookup_insert_ne; [done | congruence | congruence].
  - apply (respects_step_route (keeps_timed rid method path start));
      keeps_timed_tac.
  - apply (respects_step_respond (keeps_timed rid method path start));
      keeps_timed_tac.
  - apply (respects_step_finish (keeps_timed rid method path start));
      keeps_timed_tac.
Qed.

Lemma timed_run tr st :
  timed rid method path start st -> timed rid method path start (run tr st).
Proof.
  revert st. induction tr as [|ev tr IH]; intros st H; [done|].
  rewrite run_cons. by apply IH, timed_step.
Qed.

(** The middleware files the start time, then hands over to [next]. *)
Lemma timing_middleware_next next st :
  timing_middleware rid start next st = next (snd (res_on_finish rid start st)).
Proof. reflexivity. Qed.

Lemma request_step st :
  halted st = None ->
  listening st = true ->
  requests st !! rid = None ->
  requests (step (EvRequest rid method path start) st) !! rid
  = Some {| req_method := method;
            req_path := path;
            req_route := None;
            finish_listener := Some start;
            res_statusCode := 200;
            res_body := None;
            res_finished := false |}.
Proof.
  intros Hh Hl Hr. unfold step. rewrite Hh, Hl, Hr. cbn.
  by rewrite lookup_alter_eq, lookup_insert_eq.
Qed.

End Timing.

Lemma routes_truthy p : In p routes -> String.eqb p "" = false.
Proof.
  unfold routes. simpl.
  intros H. repeat (destruct H as [<-|H]; [reflexivity|]). destruct H.
Qed.

(** [req.route?.path || req.path] on the routes of the application. *)
Lemma route_label_spec x :
  (forall p, req_route x = Some p -> In p routes) ->
  route_label x = match req_route x with
                  | Some p => p
                  | None => req_path x
                  end.
Proof.
  intros Hr. unfold route_label. destruct (req_route x) as [p|]; [|done].
  by rewrite (routes_truthy p (Hr p eq_refl)).
Qed.

(** The 'finish' event of a response that has been ended. *)
Lemma finish_step st rid x b start now raised :
  halted st = None ->
  requests st !! rid = Some x ->
  res_body x = Some b ->
  res_finished x = false ->
  finish_listener x = Some start ->
  step (EvFinish rid now raised) st
  = run_callback (on_finish x start now raised)
      (with_requests (alter set_finished rid (requests st)) st).
Proof. intros Hh Hx Hb Hf Hl. unfold step. by rewrite Hh, Hx, Hb, Hf, Hl. Qed.

Section TimingClaims.
Local Open Scope Z_scope.

(** C5. A request that enters the middleware at time [start] has that time
    filed with its response before any handler is dispatched; whatever
    happens in between, when the ended response emits 'finish' at time [now]
    the histogram receives one observation of [(now - start) / 1000] seconds
    under the labels method, route and status_code, the route being the
    pattern of the matched route if the router matched one of the
    application's routes and the path of the request otherwise. *)
Theorem request_duration_is_observed st rid method path start tr x b now next :
  halted st = None ->
  listening st = true ->
  requests st !! rid = None ->
  halted (run tr (step (EvRequest rid method path start) st)) = None ->
  requests (run tr (step (EvRequest rid method path start) st)) !! rid = Some x ->
  res_body x = Some b ->
  res_finished x = false ->
  (forall p, req_route x = Some p -> In p routes) ->
  let entered := step (EvRequest rid method path start) st in
  let ended := run tr entered in
  let finished := step (EvFinish rid now None) ended in
  timing_middleware rid start next st
  = next (snd (res_on_finish rid start st))
  ∧ (exists x0, requests entered !! rid = Some x0
                ∧ finish_listener x0 = Some start
                ∧ routable x0 = true)
  ∧ httpRequestDuration finished
    = observe (labels ["method"; "route"; "status_code"]
                      [method;
                       match req_route x with
                       | Some p => p
                       | None => path
                       end;
                       pretty (res_statusCode x)])
              (inject_Z (now - start) / 1000)%Q
              (httpRequestDuration ended)
  ∧ halted finished = None.
Proof.
  intros Hh Hl Hr Hh2 Hx Hb Hf Hroute. cbv zeta.
  pose proof (request_step rid method path start st Hh Hl Hr) as Hentered.
  split; [reflexivity|]. split.
  { eexists. split; [exact Hentered|]. by split. }
  assert (Ht : timed rid method path start
                 (run tr (step (EvRequest rid method path start) st))).
  { apply timed_run. eexists. split; [exact Hentered|]. by repeat split. }
  destruct Ht as (x' & Hx' & Hm & Hp & Hs).
  rewrite Hx in Hx'. injection Hx' as <-.
  rewrite (finish_step _ rid x b start now None Hh2 Hx Hb Hf Hs).
  subst method path. rewrite <- (route_label_spec x Hroute).
  split; [reflexivity | exact Hh2].
Qed.

Lemma request_duration_is_observed_witness :
  let st := run [EvSettle 0 (Fulfilled VConnection);
                 EvSettle 1 (Fulfilled VPong);
                 EvSettle 2 (Fulfilled (VCount 3))]
                (boot [1; 5; 10]%Q None) in
  let tr := [EvRoute 7 (GetAssignments "2");
             EvSettle 3 (Rejected (DriverError "ER_LOCK_DEADLOCK"))] in
  let x := {| req_method := "GET";
              req_path := "/api/users/2/assignments";
              req_route := Some "/api/users/:userId/assignments";
              finish_listener := Some 1000;
              res_statusCode := 500;
              res_body := Some (BError "Internal server error");
              res_finished := false |} in
  let entered := step (EvRequest 7 "GET" "/api/users/2/assignments" 1000) st in
  let ended := run tr entered in
  let finished := step (EvFinish 7 1250 None) ended in
  timing_middleware 7 1000 (ret tt) st
  = ret tt (snd (res_on_finish 7 1000 st))
  ∧ (exists x0, requests entered !! 7%nat = Some x0
                ∧ finish_listener x0 = Some 1000
                ∧ routable x0 = true)
  ∧ httpRequestDuration finished
    = observe (labels ["method"; "route"; "status_code"]
                      ["GET";
                       match req_route x with
                       | Some p => p
                       | None => "/api/users/2/assignments"
                       end;
                       pretty (res_statusCode x)])
              (inject_Z (1250 - 1000) / 1000)%Q
              (httpRequestDuration ended)
  ∧ halted finished = None.
Proof.
  intros st tr x.
  apply (request_duration_is_observed st 7%nat "GET" "/api/users/2/assignments"
           1000 tr x (BError "Internal server error") 1250 (ret tt)).
  - reflexivity.
  - reflexivity.
  - vm_compute. reflexivity.
  - vm_compute. reflexivity.
  - vm_compute. reflexivity.
  - reflexivity.
  - reflexivity.
  - intros p [= <-]. unfold routes. simpl. tauto.
Defined.

End TimingClaims.

(** ** Further properties of the application *)

(** *** Every segment ends normally *)

Section Segments.

Ltac segment :=
  apply never_throws_try_catch; intros ?;
  unfold updateMemoMetrics_catch, memo_stats_catch, memos_catch,
    assignments_catch, accept_catch, notifications_catch,
    memoOperationsTotal_inc, console_error, res_status, res_json, on_exchange;
  never_throws_tac.

Lemma updateMemoMetrics_never_throws : never_throws updateMemoMetrics.
Proof. segment. Qed.

Lemma updateMemoMetrics_resume_never_throws r :
  never_throws (updateMemoMetrics_resume r).
Proof. segment. Qed.

Lemma handler_never_throws h rid : never_throws (handler h rid).
Proof. destruct h; simpl; segment. Qed.

Lemma memo_stats_today_never_throws rid r :
  never_throws (memo_stats_today rid r).
Proof. segment. Qed.

Lemma memo_stats_total_never_throws rid today r :
  never_throws (memo_stats_total rid today r).
Proof. segment. Qed.

Lemma memo_stats_trend_never_throws rid today total r :
  never_throws (memo_stats_trend rid today total r).
Proof. segment. Qed.

Lemma memos_resume_never_throws rid r : never_throws (memos_resume rid r).
Proof. segment. Qed.

Lemma assignments_resume_never_throws rid r :
  never_throws (assignments_resume rid r).
Proof. segment. Qed.

Lemma accept_resume_never_throws rid r : never_throws (accept_resume rid r).
Proof. segment. Qed.

Lemma notifications_resume_never_throws rid r :
  never_throws (notifications_resume rid r).
Proof. segment. Qed.

Lemma async_never_throws c seg : never_throws (async c seg).
Proof.
  destruct c; [|apply never_throws_async_floating].
  intros st. unfold async.
  assert (Hs : forall o, never_throws (settle Main o)).
  { intros [u|e]; simpl.
    - apply never_throws_try_catch. intros e.
      unfold main_catch, console_error, process_exit. never_throws_tac.
    - unfold main_catch, console_error, process_exit. never_throws_tac. }
  destruct (seg st) as [[[]|e] st']; [apply Hs | by exists tt | apply Hs].
Qed.

Lemma resume_never_throws k r : never_throws (resume k r).
Proof. destruct k; apply async_never_throws. Qed.

Lemma callback_never_throws cb raises : never_throws (callback cb raises).
Proof. destruct cb; apply async_never_throws. Qed.

(** A callback that ends normally leaves the process running as it was. *)
Lemma run_callback_normal m st :
  never_throws m -> run_callback m st = snd (m st).
Proof.
  intros Hm. unfold run_callback. destruct (Hm st) as [u Hu].
  destruct (m st) as [c st']. simpl in *. by subst c.
Qed.

(** A floating async call whose segment ends normally. *)
Lemma async_floating_normal seg st :
  never_throws seg -> snd (async Floating seg st) = snd (seg st).
Proof.
  intros Hs. unfold async. destruct (Hs st) as [a Ha].
  destruct (seg st) as [c st']. simpl in *. subst c. by destruct a.
Qed.

End Segments.

(** *** Relations respected by the code, frame class by frame class

    The same as before, but an await is only assumed to respect the
    relation for the classes of frames in [allowed], and no exception is
    taken to escape. *)

Section Quiet.

Variable R : State -> State -> Prop.
Variable allowed : FrameClass -> Prop.
Hypothesis R_refl : forall st, R st st.
Hypothesis R_trans : forall a b c, R a b -> R b c -> R a c.

Hypothesis Q_console_log : forall msg, respects R (console_log msg).
Hypothesis Q_console_error : forall msg e, respects R (console_error msg e).
Hypothesis Q_setTimeout : forall cb ms, respects R (setTimeout cb ms).
Hypothesis Q_setInterval : forall cb ms, respects R (setInterval cb ms).
Hypothesis Q_app_listen : respects R app_listen.
Hypothesis Q_await :
  forall call k, allowed (frame_class k) -> respects R (await call k).
Hypothesis Q_set_pool : respects R (modify (with_pool (Some dbConfig))).
Hypothesis Q_dbConnectionsTotal_inc : respects R dbConnectionsTotal_inc.
Hypothesis Q_memoOperationsTotal_inc :
  forall op status, respects R (memoOperationsTotal_inc op status).
Hypothesis Q_activeMemos_set : forall v, respects R (activeMemos_set v).
Hypothesis Q_res_status : forall rid code, respects R (res_status rid code).
Hypothesis Q_res_json : forall rid b, respects R (res_json rid b).

Ltac quiet_tac :=
  repeat first
    [ apply (respects_ret R R_refl)
    | apply (respects_throw R R_refl)
    | apply (respects_gets R R_refl)
    | apply (respects_try_catch R R_trans); [|intros ?]
    | apply (respects_bind R R_trans); [|intros ?]
    | match goal with |- respects _ (match ?x with _ => _ end) => destruct x end
    | solve [auto] ].

Lemma quiet_on_pool call k :
  allowed (frame_class k) -> respects R (on_pool call k).
Proof using R_refl R_trans Q_await. intros Hk. unfold on_pool. quiet_tac. Qed.

Lemma quiet_awaited r : respects R (awaited r).
Proof using R_refl. unfold awaited. quiet_tac. Qed.

Lemma quiet_rows0_count v : respects R (rows0_count v).
Proof using R_refl. unfold rows0_count. quiet_tac. Qed.

Hint Resolve quiet_on_pool quiet_awaited quiet_rows0_count : core.

Lemma quiet_async_floating seg :
  never_throws seg -> respects R seg -> respects R (async Floating seg).
Proof using Type.
  intros Hn Hs st. rewrite async_floating_normal by done. apply Hs.
Qed.

Lemma quiet_updateMemoMetrics :
  allowed RefreshFrame -> respects R updateMemoMetrics.
Proof using R_refl R_trans Q_await Q_console_error.
  intros Ha. unfold updateMemoMetrics, updateMemoMetrics_catch. quiet_tac.
Qed.

Lemma quiet_updateMemoMetrics_resume r :
  respects R (updateMemoMetrics_resume r).
Proof using R_refl R_trans Q_console_error Q_activeMemos_set.
  unfold updateMemoMetrics_resume, updateMemoMetrics_catch. quiet_tac.
Qed.

(** The call [updateMemoMetrics()]. *)
Lemma quiet_refresh_call :
  allowed RefreshFrame -> respects R (async Floating updateMemoMetrics).
Proof using R_refl R_trans Q_await Q_console_error.
  intros Ha. apply quiet_async_floating;
    [apply updateMemoMetrics_never_throws | by apply quiet_updateMemoMetrics].
Qed.

Hint Resolve quiet_refresh_call : core.

Lemma quiet_initializeDatabase raises c :
  allowed (frame_class (KInitGetConnection c)) ->
  respects R (initializeDatabase raises c).
Proof using R_refl R_trans Q_await Q_console_error Q_console_log Q_setTimeout
  Q_set_pool.
  intros Ha.
  unfold initializeDatabase, initializeDatabase_catch, createPool. quiet_tac.
Qed.

Lemma quiet_initializeDatabase_connected c r :
  allowed (frame_class (KInitPing c)) ->
  respects R (initializeDatabase_connected c r).
Proof using R_refl R_trans Q_await Q_console_error Q_setTimeout.
  intros Ha.
  unfold initializeDatabase_connected, initializeDatabase_catch. quiet_tac.
Qed.

Lemma quiet_initializeDatabase_pinged r :
  allowed RefreshFrame -> respects R (initializeDatabase_pinged r).
Proof using R_refl R_trans Q_await Q_console_error Q_console_log Q_setTimeout.
  intros Ha.
  unfold initializeDatabase_pinged, initializeDatabase_catch. quiet_tac.
Qed.

(** The code after the awaits of the request handlers. *)
Lemma quiet_request_resume k r :
  frame_class k = RequestFrame ->
  allowed RequestFrame -> allowed RefreshFrame ->
  respects R (resume k r).
Proof using R_refl R_trans Q_await Q_console_error Q_memoOperationsTotal_inc
  Q_res_status Q_res_json.
  intros Hk Hreq Href.
  destruct k as [[]|[]| | | | | | | |]; try discriminate Hk; simpl;
    apply quiet_async_floating.
  - apply memo_stats_today_never_throws.
  - unfold memo_stats_today, memo_stats_catch. quiet_tac.
  - apply memo_stats_total_never_throws.
  - unfold memo_stats_total, memo_stats_catch. quiet_tac.
  - apply memo_stats_trend_never_throws.
  - unfold memo_stats_trend, memo_stats_catch. quiet_tac.
  - apply memos_resume_never_throws.
  - unfold memos_resume, memos_catch. quiet_tac.
  - apply assignments_resume_never_throws.
  - unfold assignments_resume, assignments_catch. quiet_tac.
  - apply accept_resume_never_throws.
  - unfold accept_resume, accept_catch. quiet_tac.
  - apply notifications_resume_never_throws.
  - unfold notifications_resume, notifications_catch. quiet_tac.
Qed.

(** The code after the awaits of a retry of initializeDatabase. *)
Lemma quiet_retry_resume k r :
  frame_class k = RetryFrame ->
  allowed RetryFrame -> allowed RefreshFrame ->
  respects R (resume k r).
Proof using R_refl R_trans Q_await Q_console_error Q_console_log Q_setTimeout.
  intros Hk Hretry Href.
  destruct k as [[]|[]| | | | | | | |]; try discriminate Hk; simpl;
    apply quiet_async_floating.
  - apply initializeDatabase_connected_never_throws.
  - by apply quiet_initializeDatabase_connected.
  - apply initializeDatabase_pinged_never_throws.
  - by apply quiet_initializeDatabase_pinged.
Qed.

(** The code after the awaits of the start-up call. *)
Lemma quiet_startup_resume k r :
  frame_class k = StartupFrame ->
  allowed StartupFrame -> allowed RefreshFrame ->
  respects R (resume k r).
Proof using R_refl R_trans Q_await Q_console_error Q_console_log Q_setTimeout
  Q_app_listen Q_setInterval.
  intros Hk Hstart Href.
  destruct k as [[]|[]| | | | | | | |]; try discriminate Hk; simpl;
    apply (respects_async_main R R_refl R_trans); auto.
  - apply initializeDatabase_connected_never_throws.
  - by apply quiet_initializeDatabase_connected.
  - apply initializeDatabase_pinged_never_throws.
  - by apply quiet_initializeDatabase_pinged.
Qed.

(** The code after the await of a refresh. *)
Lemma quiet_refresh_resume r : respects R (resume KUpdateMemoMetrics r).
Proof using R_refl R_trans Q_console_error Q_activeMemos_set.
  simpl. apply quiet_async_floating;
    [apply updateMemoMetrics_resume_never_throws
    | apply quiet_updateMemoMetrics_resume].
Qed.

(** The handlers up to their first await. *)
Lemma quiet_handler h rid :
  allowed RequestFrame -> respects R (async Floating (handler h rid)).
Proof using R_refl R_trans Q_await Q_console_error Q_dbConnectionsTotal_inc
  Q_memoOperationsTotal_inc Q_res_status Q_res_json.
  intros Hreq. apply quiet_async_floating; [apply handler_never_throws|].
  destruct h; simpl.
  - unfold memo_stats, memo_stats_catch. quiet_tac.
  - unfold memos, memos_catch. quiet_tac.
  - unfold assignments, assignments_catch. quiet_tac.
  - unfold accept, accept_catch. quiet_tac.
  - unfold notifications, notifications_catch. quiet_tac.
Qed.

(** The timer callbacks. *)
Lemma quiet_callback_refresh raises :
  allowed RefreshFrame -> respects R (callback CbUpdateMemoMetrics raises).
Proof using R_refl R_trans Q_await Q_console_error. simpl. auto. Qed.

Lemma quiet_callback_retry raises :
  allowed RetryFrame -> respects R (callback CbInitializeDatabase raises).
Proof using R_refl R_trans Q_await Q_console_error Q_console_log Q_setTimeout
  Q_set_pool.
  intros Ha. simpl. apply quiet_async_floating;
    [apply initializeDatabase_never_throws | by apply quiet_initializeDatabase].
Qed.

(** The event loop, one kind of event at a time. *)
Hypothesis Q_take :
  forall st p cf rest,
    take p (pending st) = Some (cf, rest) ->
    R st (with_pending rest (next_promise st) st).
Hypothesis Q_fire :
  forall st i cb ms,
    timers st !! i = Some (Timeout cb ms) ->
    R st (with_timers (delete i (timers st)) st).
Hypothesis Q_new_exchange :
  forall st rid method path,
    requests st !! rid = None ->
    R st (with_requests (<[rid := new_exchange method path]> (requests st)) st).
Hypothesis Q_res_on_finish : forall rid start, respects R (res_on_finish rid start).
Hypothesis Q_set_route :
  forall rid route, respects R (on_exchange rid (set_route route)).
Hypothesis Q_set_finished : forall rid, respects R (on_exchange rid set_finished).
Hypothesis Q_observe :
  forall method route status duration,
    respects R (httpRequestDuration_observe method route status duration None).

Lemma quiet_run_callback m st :
  never_throws m -> respects R m -> R st (run_callback m st).
Proof using Type. intros Hn Hm. rewrite run_callback_normal by done. apply Hm. Qed.

(** A promise settles, the frames of every class being allowed. *)
Lemma quiet_step_settle p r st :
  (forall c, allowed c) -> R st (step (EvSettle p r) st).
Proof using R_refl R_trans Q_await Q_console_error Q_console_log Q_setTimeout
  Q_app_listen Q_setInterval Q_memoOperationsTotal_inc Q_activeMemos_set
  Q_res_status Q_res_json Q_take.
  intros Hall. unfold step. destruct (halted st); [done|].
  destruct (take p (pending st)) as [[[call k] rest]|] eqn:Ht; [|done].
  destruct (well_kinded call r); [|done].
  eapply R_trans; [eapply Q_take, Ht|].
  apply quiet_run_callback; [apply resume_never_throws|].
  destruct (frame_class k) eqn:Hk.
  - by apply quiet_startup_resume.
  - by apply quiet_retry_resume.
  - destruct k as [[]|[]| | | | | | | |]; try discriminate Hk.
    apply quiet_refresh_resume.
  - by apply quiet_request_resume.
Qed.

Lemma quiet_step_timer i raises st :
  allowed RetryFrame -> allowed RefreshFrame ->
  R st (step (EvTimer i raises) st).
Proof using R_refl R_trans Q_await Q_console_error Q_console_log Q_setTimeout
  Q_set_pool Q_fire.
  intros Hretry Href. unfold step. destruct (halted st); [done|].
  assert (Hcb : forall cb, respects R (callback cb raises)).
  { intros []; [by apply quiet_callback_retry | by apply quiet_callback_refresh]. }
  destruct (timers st !! i) as [[cb ms|cb ms]|] eqn:Ht; [| |done].
  - eapply R_trans; [eapply Q_fire, Ht|].
    apply quiet_run_callback; [apply callback_never_throws | apply Hcb].
  - apply quiet_run_callback; [apply callback_never_throws | apply Hcb].
Qed.

Lemma quiet_step_request rid method path now st :
  R st (step (EvRequest rid method path now) st).
Proof using R_refl R_trans Q_new_exchange Q_res_on_finish.
  unfold step. destruct (halted st); [done|].
  destruct (listening st); [|done].
  destruct (requests st !! rid) eqn:Hr; [done|].
  eapply R_trans; [eapply Q_new_exchange, Hr|].
  apply quiet_run_callback.
  - unfold timing_middleware, res_on_finish, on_exchange. never_throws_tac.
  - unfold timing_middleware.
    apply (respects_bind R R_trans);
      [apply Q_res_on_finish | intros _; apply (respects_ret R R_refl)].
Qed.

Lemma quiet_step_route rid h st :
  allowed RequestFrame -> R st (step (EvRoute rid h) st).
Proof using R_refl R_trans Q_await Q_console_error Q_dbConnectionsTotal_inc
  Q_memoOperationsTotal_inc Q_res_status Q_res_json Q_set_route.
  intros Hreq. unfold step. destruct (halted st); [done|].
  destruct (requests st !! rid) as [x|]; [|done].
  destruct (routable x); [|done].
  apply quiet_run_callback.
  - unfold on_exchange. never_throws_tac.
  - apply (respects_bind R R_trans);
      [apply Q_set_route | intros _; by apply quiet_handler].
Qed.

Lemma quiet_step_respond rid route status st :
  R st (step (EvRespond rid route status) st).
Proof using R_refl R_trans Q_res_status Q_res_json Q_set_route.
  unfold step. destruct (halted st); [done|].
  destruct (requests st !! rid) as [x|]; [|done].
  destruct (routable x); [|done].
  apply quiet_run_callback.
  - unfold res_status, res_json, on_exchange. never_throws_tac.
  - apply (respects_bind R R_trans); [apply Q_set_route | intros _].
    apply (respects_bind R R_trans); [apply Q_res_status | intros _].
    apply Q_res_json.
Qed.

(** A 'finish' whose observation does not raise. *)
Lemma quiet_step_finish rid now st :
  R st (step (EvFinish rid now None) st).
Proof using R_refl R_trans Q_set_finished Q_observe.
  unfold step. destruct (halted st); [done|].
  destruct (requests st !! rid) as [x|]; [|done].
  destruct (res_body x); [|done].
  destruct (res_finished x); [done|].
  destruct (finish_listener x) as [start|]; [|done].
  apply quiet_run_callback.
  - unfold on_exchange, on_finish, httpRequestDuration_observe. never_throws_tac.
  - apply (respects_bind R R_trans); [apply Q_set_finished | intros _].
    unfold on_finish. apply Q_observe.
Qed.

End Quiet.

(** *** What stops the process *)

Section Halting.

Ltac same_halted_tac :=
  first [ intros; try intros ?; hnf; reflexivity
        | intros; hnf in *; congruence
        | intros; exact I ].

Lemma quiet_step_same_halted ev st :
  quiet ev = true -> halted (step ev st) = halted st.
Proof.
  intros Hq. change (same_halted st (step ev st)). destruct ev.
  - apply (quiet_step_settle same_halted (fun _ => True)); same_halted_tac.
  - apply (quiet_step_timer same_halted (fun _ => True)); same_halted_tac.
  - apply (quiet_step_request same_halted); same_halted_tac.
  - apply (quiet_step_route same_halted (fun _ => True)); same_halted_tac.
  - apply (quiet_step_respond same_halted); same_halted_tac.
  - destruct raised; [discriminate Hq|].
    apply (quiet_step_finish same_halted); same_halted_tac.
Qed.

Lemma quiet_run_same_halted tr st :
  forallb quiet tr = true -> halted (run tr st) = halted st.
Proof.
  revert st. induction tr as [|ev tr IH]; intros st Hq; [done|].
  simpl in Hq. apply andb_true_iff in Hq as [Hev Htr].
  rewrite run_cons, IH by done. by apply quiet_step_same_halted.
Qed.

Lemma boot_running bounds raises : halted (boot bounds raises) = None.
Proof. by destruct raises. Qed.

(** X1. Whatever the database driver does (pool creation raising,
    connections, pings and queries rejected at any point, in any order) and
    whatever requests arrive, the process keeps running: along a run in
    which no histogram observation raises, no exception is left uncaught and
    process.exit is never called. *)
Theorem driver_failures_never_stop_process bounds raises tr :
  forallb quiet tr = true ->
  halted (run tr (boot bounds raises)) = None.
Proof.
  intros Hq. rewrite quiet_run_same_halted by done. apply boot_running.
Qed.

Lemma driver_failures_never_stop_process_witness :
  let tr := [EvSettle 0 (Fulfilled VConnection);
             EvSettle 1 (Rejected (DriverError "PROTOCOL_CONNECTION_LOST"));
             EvRequest 7 "GET" "/api/memos" 1000;
             EvRoute 7 GetMemos;
             EvTimer 1 None;
             EvSettle 2 (Rejected (DriverError "ECONNREFUSED"));
             EvTimer 0 (Some (DriverError "ENOMEM"));
             EvSettle 3 (Rejected (DriverError "ECONNREFUSED"));
             EvFinish 7 1250 None] in
  halted (run tr (boot [] None)) = None.
Proof.
  intros tr. apply (driver_failures_never_stop_process [] None tr).
  reflexivity.
Defined.

End Halting.

(** *** The timing hook never throws *)

Section Hook.
Local Open Scope Z_scope.

(** The listener passes three values for the three label names. *)
Lemma finish_raises_none x : finish_raises x = None.
Proof. reflexivity. Qed.

Lemma library_event_running ev st :
  library_event ev st = true -> halted (step ev st) = halted st.
Proof.
  destruct ev as [| | | | |rid now raised];
    try (intros _; by apply quiet_step_same_halted).
  unfold library_event.
  destruct (requests st !! rid) as [x|] eqn:Hx.
  - intros Hr. apply bool_decide_eq_true in Hr. subst raised.
    by apply quiet_step_same_halted.
  - intros _. unfold step. destruct (halted st) eqn:Hh; [done|]. by rewrite Hx.
Qed.

Lemma library_run_running tr st :
  library_run tr st = true -> halted (run tr st) = halted st.
Proof.
  revert st. induction tr as [|ev tr IH]; intros st; [done|].
  simpl library_run. intros [Hev Htr]%andb_true_iff.
  rewrite run_cons, (IH _ Htr). by apply library_event_running.
Qed.



End Hook.

(** *** The counters of the application only grow *)

Section Growth.
Local Open Scope Q_scope.

Lemma counters_grow_refl st : counters_grow st st.
Proof. intros ls. split; apply Qle_refl. Qed.

Lemma counters_grow_trans a b c :
  counters_grow a b -> counters_grow b c -> counters_grow a c.
Proof.
  intros Hab Hbc ls. destruct (Hab ls), (Hbc ls).
  split; eapply Qle_trans; eauto.
Qed.

Lemma series_grow_inc (c : gmap LabelSet Q) ls ls' :
  series_value c ls' <= series_value (<[ls := series_value c ls + 1]> c) ls'.
Proof. apply (increment_monotone c ls 1 ls'). Qed.

Lemma counters_grow_dbConnectionsTotal_inc :
  respects counters_grow dbConnectionsTotal_inc.
Proof. intros st ls. split; [apply series_grow_inc | apply Qle_refl]. Qed.

Lemma counters_grow_memoOperationsTotal_inc op status :
  respects counters_grow (memoOperationsTotal_inc op status).
Proof. intros st ls. split; [apply Qle_refl | apply series_grow_inc]. Qed.

Ltac counters_grow_tac :=
  first [ exact counters_grow_refl | exact counters_grow_trans
        | exact counters_grow_dbConnectionsTotal_inc
        | exact counters_grow_memoOperationsTotal_inc
        | intros; try intros ?; try intros ?; split; apply Qle_refl ].

Lemma counters_grow_step ev st : counters_grow st (step ev st).
Proof.
  destruct ev.
  - apply (respects_step_settle counters_grow); counters_grow_tac.
  - apply (respects_step_timer counters_grow); counters_grow_tac.
  - apply (respects_step_request counters_grow); counters_grow_tac.
  - apply (respects_step_route counters_grow); counters_grow_tac.
  - apply (respects_step_respond counters_grow); counters_grow_tac.
  - apply (respects_step_finish counters_grow); counters_grow_tac.
Qed.

Lemma counters_grow_run tr st : counters_grow st (run tr st).
Proof.
  revert st. induction tr as [|ev tr IH]; intros st.
  - apply counters_grow_refl.
  - rewrite run_cons.
    exact (counters_grow_trans st (step ev st) _ (counters_grow_step ev st)
             (IH (step ev st))).
Qed.

(** X2. Along every run, no series of db_connections_total or of
    memo_operations_total ever decreases: the application only ever calls
    [inc()] on them, so it never asks a counter to go down. *)
Theorem counters_never_decrease tr st ls :
  series_value (dbConnectionsTotal st) ls
  <= series_value (dbConnectionsTotal (run tr st)) ls
  ∧ series_value (memoOperationsTotal st) ls
    <= series_value (memoOperationsTotal (run tr st)) ls.
Proof. apply counters_grow_run. Qed.

End Growth.

(** *** Connection attempts, retries and the refresh timer *)

Section Scheduling.

Lemma take_count (f : nat * (DriverCall * Frame) -> bool) p l cf rest :
  take p l = Some (cf, rest) ->
  length (filter f l) = (if f (p, cf) then 1 else 0) + length (filter f rest).
Proof.
  revert rest. induction l as [|[q cf'] l IH]; intros rest; simpl; [done|].
  destruct (Nat.eqb_spec p q) as [->|Hne].
  - intros [= -> ->]. rewrite filter_cons. destruct (f (q, cf)); simpl; done.
  - destruct (take p l) as [[cf'' rest']|]; [|done].
    intros [= -> <-]. rewrite !filter_cons. specialize (IH rest' eq_refl).
    destruct (f (q, cf')); simpl; rewrite IH; destruct (f (p, cf)); lia.
Qed.

Lemma delete_count (f : Timer -> bool) (l : list Timer) i t :
  l !! i = Some t ->
  length (filter f l) = (if f t then 1 else 0) + length (filter f (delete i l)).
Proof.
  revert i. induction l as [|a l IH]; intros i; [done|].
  destruct i as [|i]; simpl.
  - intros [= ->]. rewrite filter_cons. destruct (f t); simpl; done.
  - intros Hi. rewrite !filter_cons. specialize (IH i Hi).
    destruct (f a); simpl; rewrite IH; destruct (f t); lia.
Qed.

Lemma count_snoc {A} (f : A -> bool) (l : list A) x :
  length (filter f (l ++ [x])) = length (filter f l) + (if f x then 1 else 0).
Proof.
  rewrite filter_app, length_app, filter_cons. simpl.
  destruct (f x); simpl; lia.
Qed.

Lemma same_schedule_refl st : same_schedule st st.
Proof. by repeat split. Qed.

Lemma same_schedule_trans a b c :
  same_schedule a b -> same_schedule b c -> same_schedule a c.
Proof. unfold same_schedule. intros (?&?&?) (?&?&?). repeat split; congruence. Qed.

Lemma same_schedule_await call k :
  request_or_refresh (frame_class k) -> respects same_schedule (await call k).
Proof.
  intros Hk st. split; [done|]. unfold attempts, startups. simpl.
  rewrite !count_snoc. unfold is_attempt, is_main. simpl.
  destruct k as [[]|[]| | | | | | | |], Hk as [Hk|Hk];
    try discriminate Hk; split; lia.
Qed.

Ltac same_schedule_tac :=
  first [ exact same_schedule_refl | exact same_schedule_trans
        | exact same_schedule_await
        | intros; try intros ?; by repeat split
        | by left | by right ].

Lemma scheduled_same st st' :
  same_schedule st st' -> scheduled st -> scheduled st'.
Proof.
  unfold same_schedule, scheduled, timers_known, retries, intervals.
  intros (-> & -> & ->). done.
Qed.

(** A request or refresh frame is taken off the pending list. *)
Lemma same_schedule_take st p call k rest :
  take p (pending st) = Some ((call, k), rest) ->
  request_or_refresh (frame_class k) ->
  same_schedule st (with_pending rest (next_promise st) st).
Proof.
  intros Ht Hk. split; [done|]. unfold attempts, startups. simpl.
  rewrite (take_count is_attempt _ _ _ _ Ht), (take_count is_main _ _ _ _ Ht).
  unfold is_attempt, is_main. simpl.
  destruct k as [[]|[]| | | | | | | |], Hk as [Hk|Hk];
    try discriminate Hk; split; lia.
Qed.

Lemma scheduled_settle_request p r st call k rest :
  halted st = None ->
  take p (pending st) = Some ((call, k), rest) ->
  request_or_refresh (frame_class k) ->
  same_schedule st
    (run_callback (resume k r) (with_pending rest (next_promise st) st)).
Proof.
  intros Hh Ht Hk.
  eapply same_schedule_trans; [by eapply same_schedule_take|].
  apply quiet_run_callback; [apply resume_never_throws|].
  destruct Hk as [Hk|Hk].
  - apply (quiet_request_resume same_schedule request_or_refresh);
      first [done | same_schedule_tac].
  - destruct k as [[]|[]| | | | | | | |]; try discriminate Hk.
    apply (quiet_refresh_resume same_schedule); same_schedule_tac.
Qed.

(** A connection attempt goes on, or ends in a retry timeout, or succeeds;
    the first time the start-up call ends, the interval is armed. *)
Lemma scheduled_settle_attempt p r st call k rest :
  halted st = None ->
  take p (pending st) = Some ((call, k), rest) ->
  is_attempt (p, (call, k)) = true ->
  scheduled st ->
  scheduled (run_callback (resume k r) (with_pending rest (next_promise st) st)).
Proof.
  intros Hh Ht Hk (Hknown & Hone & Hiv).
  unfold scheduled, timers_known, attempts, startups, retries, intervals in *.
  rewrite (take_count is_attempt _ _ _ _ Ht), Hk in Hone.
  rewrite (take_count is_main _ _ _ _ Ht) in Hiv.
  destruct k as [[]|[]| | | | | | | |]; try discriminate Hk;
    destruct r as [v|e];
    change (is_main (p, (call, KInitGetConnection Main))) with true in Hiv;
    change (is_main (p, (call, KInitPing Main))) with true in Hiv;
    change (is_main (p, (call, KInitGetConnection Floating))) with false in Hiv;
    change (is_main (p, (call, KInitPing Floating))) with false in Hiv;
    simpl in Hiv;
    unfold run_callback, resume, initializeDatabase_connected,
      initializeDatabase_pinged, initializeDatabase_catch;
    unfold async, updateMemoMetrics, updateMemoMetrics_catch,
      on_pool, try_catch, bind, gets, awaited, await, ret, throw, settle,
      main_then, console_log, console_error, setTimeout, setInterval,
      app_listen, modify;
    simpl; try (destruct (pool st); simpl);
    rewrite ?count_snoc, ?Forall_app, ?Forall_singleton; cbn;
    repeat match goal with |- _ ∧ _ => split end;
    first [assumption | by left | by right | lia].
Qed.

Lemma scheduled_timer i raises st :
  scheduled st -> scheduled (step (EvTimer i raises) st).
Proof.
  intros Hs. unfold step. destruct (halted st) eqn:Hh; [done|].
  destruct (timers st !! i) as [t|] eqn:Hi; [|by destruct Hs].
  destruct Hs as (Hknown & Hone & Hiv).
  assert (Ht : t = retry_timer ∨ t = refresh_timer).
  { unfold timers_known in Hknown. rewrite Forall_forall in Hknown.
    apply Hknown. eapply list_elem_of_lookup_2, Hi. }
  destruct Ht as [-> | ->].
  - unfold retry_timer in *.
    unfold scheduled, timers_known, attempts, startups, retries, intervals in *.
    rewrite (delete_count is_timeout _ _ _ Hi) in Hone.
    rewrite (delete_count is_interval _ _ _ Hi) in Hiv.
    simpl in Hone, Hiv.
    pose proof (Forall_delete _ _ i Hknown) as Hdel.
    destruct raises as [e|];
      unfold run_callback, callback, initializeDatabase,
        initializeDatabase_catch, createPool;
      unfold async, on_pool, try_catch, bind, gets, await, ret, throw, settle,
        console_log, console_error, setTimeout, modify;
      simpl;
      rewrite ?count_snoc, ?Forall_app, ?Forall_singleton; cbn;
      repeat match goal with |- _ ∧ _ => split end;
      first [assumption | by left | by right | lia].
  - unfold refresh_timer in *. cbv iota.
    destruct (pool st) as [pl|] eqn:Hp.
    + pose proof (tick_step st i _ raises pl Hh Hi Hp) as Hstep.
      unfold step in Hstep. rewrite Hh, Hi in Hstep. rewrite Hstep.
      eapply scheduled_same; [|by repeat split].
      apply (same_schedule_await (Execute SqlCountSent) KUpdateMemoMetrics).
      by right.
    + pose proof (tick_step_without_pool st i _ raises Hh Hi Hp) as Hstep.
      unfold step in Hstep. rewrite Hh, Hi in Hstep. rewrite Hstep.
      by repeat split.
Qed.

Lemma scheduled_step ev st : scheduled st -> scheduled (step ev st).
Proof.
  intros Hs. destruct ev.
  - unfold step. destruct (halted st) eqn:Hh; [done|].
    destruct (take p (pending st)) as [[[call k] rest]|] eqn:Ht; [|done].
    destruct (well_kinded call r); [|done].
    destruct (is_attempt (p, (call, k))) eqn:Hk.
    + by eapply scheduled_settle_attempt.
    + eapply scheduled_same; [|exact Hs].
      eapply scheduled_settle_request; [done | done |].
      unfold is_attempt in Hk. simpl in Hk.
      destruct k as [[]|[]| | | | | | | |]; try discriminate Hk;
        first [by left | by right].
  - by apply scheduled_timer.
  - eapply scheduled_same; [|exact Hs].
    apply (quiet_step_request same_schedule); same_schedule_tac.
  - eapply scheduled_same; [|exact Hs].
    apply (quiet_step_route same_schedule request_or_refresh); same_schedule_tac.
  - eapply scheduled_same; [|exact Hs].
    apply (quiet_step_respond same_schedule); same_schedule_tac.
  - eapply scheduled_same; [|exact Hs].
    apply (respects_step_finish same_schedule); same_schedule_tac.
Qed.

Lemma scheduled_boot bounds raises : scheduled (boot bounds raises).
Proof.
  destruct raises;
    (split; [|split; vm_compute; lia]);
    unfold timers_known; cbn;
    repeat (apply Forall_cons_2; [first [by left | by right]|]);
    apply Forall_nil_2.
Qed.

Lemma scheduled_reachable bounds raises tr :
  scheduled (run tr (boot bounds raises)).
Proof.
  generalize (scheduled_boot bounds raises). generalize (boot bounds raises).
  induction tr as [|ev tr IH]; intros st Hs; [done|].
  rewrite run_cons. by apply IH, scheduled_step.
Qed.

(** X3. The refresh timer is armed exactly once.  In every state the
    process can reach, the timers are retry timeouts of 5000 ms and refresh
    intervals of 30000 ms only, and the number of refresh intervals plus the
    number of pending awaits of the start-up call is one: there is no
    interval while start-up awaits the driver, exactly one afterwards, and
    no retry of initializeDatabase ever arms another. *)
Theorem refresh_timer_armed_once bounds raises tr :
  timers_known (run tr (boot bounds raises))
  ∧ intervals (run tr (boot bounds raises))
    + startups (run tr (boot bounds raises)) = 1.
Proof.
  destruct (scheduled_reachable bounds raises tr) as (Hk & _ & Hi). by split.
Qed.

(** X4. Connection attempts never overlap.  In every state the process can
    reach, the pending awaits of initializeDatabase (start-up or retry) and
    the armed retry timeouts number at most one together: a retry is only
    armed by a failed attempt, and a new attempt only starts when the retry
    timeout fires. *)
Theorem one_connection_attempt_at_a_time bounds raises tr :
  attempts (run tr (boot bounds raises))
  + retries (run tr (boot bounds raises)) <= 1.
Proof.
  by destruct (scheduled_reachable bounds raises tr) as (_ & Ha & _).
Qed.

End Scheduling.

(** *** The gauge shows the refresh answered last *)

Section Gauge.

Ltac same_gauge_tac :=
  first [ intros; try intros ?; hnf; reflexivity
        | intros; hnf in *; congruence
        | intros; exact I ].

Lemma same_gauge_resume k r :
  k <> KUpdateMemoMetrics -> respects same_gauge (resume k r).
Proof.
  intros Hk. destruct (frame_class k) eqn:Hc.
  - apply (quiet_startup_resume same_gauge (fun _ => True)); same_gauge_tac.
  - apply (quiet_retry_resume same_gauge (fun _ => True)); same_gauge_tac.
  - destruct k as [[]|[]| | | | | | | |]; try discriminate Hc. done.
  - apply (quiet_request_resume same_gauge (fun _ => True)); same_gauge_tac.
Qed.

Lemma gauge_settle_other p r st call k rest :
  halted st = None ->
  take p (pending st) = Some ((call, k), rest) ->
  k <> KUpdateMemoMetrics ->
  activeMemos (step (EvSettle p r) st) = activeMemos st.
Proof.
  intros Hh Ht Hk. unfold step. rewrite Hh, Ht.
  destruct (well_kinded call r); [|done].
  change (same_gauge (with_pending rest (next_promise st) st)
            (run_callback (resume k r) (with_pending rest (next_promise st) st))).
  apply quiet_run_callback; [apply resume_never_throws | by apply same_gauge_resume].
Qed.

(** Only the answer to the query of a refresh changes the gauge. *)
Lemma gauge_step ev st :
  activeMemos (step ev st)
  = match answered_refresh ev st with
    | Some n => set ∅ (inject_Z n) (activeMemos st)
    | None => activeMemos st
    end.
Proof.
  destruct ev.
  - destruct (halted st) eqn:Hh.
    { unfold step, answered_refresh. rewrite Hh. by destruct r as [[]|]. }
    destruct (take p (pending st)) as [[[call k] rest]|] eqn:Ht.
    2:{ unfold step, answered_refresh. rewrite Hh, Ht. by destruct r as [[]|]. }
    assert (Hdec : k = KUpdateMemoMetrics ∨ k <> KUpdateMemoMetrics)
      by (destruct k; first [by left | by right]).
    destruct Hdec as [-> | Hk].
    + unfold step, answered_refresh. rewrite Hh, Ht.
      destruct r as [v|e].
      * destruct v;
          match goal with
          | |- context [well_kinded ?c ?r] => destruct (well_kinded c r)
          end; reflexivity.
      * reflexivity.
    + rewrite (gauge_settle_other p r st call k rest Hh Ht Hk).
      unfold answered_refresh. rewrite Hh, Ht.
      destruct r as [[]|]; try done. by destruct k.
  - replace (answered_refresh (EvTimer i createPool_raises) st) with (@None Z)
      by (unfold answered_refresh; by destruct (halted st)).
    apply (quiet_step_timer same_gauge (fun _ => True)); same_gauge_tac.
  - replace (answered_refresh (EvRequest rid method path now) st) with (@None Z)
      by (unfold answered_refresh; by destruct (halted st)).
    apply (quiet_step_request same_gauge); same_gauge_tac.
  - replace (answered_refresh (EvRoute rid h) st) with (@None Z)
      by (unfold answered_refresh; by destruct (halted st)).
    apply (quiet_step_route same_gauge (fun _ => True)); same_gauge_tac.
  - replace (answered_refresh (EvRespond rid route status) st) with (@None Z)
      by (unfold answered_refresh; by destruct (halted st)).
    apply (quiet_step_respond same_gauge); same_gauge_tac.
  - replace (answered_refresh (EvFinish rid now raised) st) with (@None Z)
      by (unfold answered_refresh; by destruct (halted st)).
    apply (respects_step_finish same_gauge); same_gauge_tac.
Qed.

(** X5. Last answer wins.  Along every run the gauge is written by nothing
    but the answers to the queries of updateMemoMetrics, whoever called it,
    and it shows the count of the query answered last: with refreshes
    overlapping, that is the count of the answer that arrived last, not of
    the query sent last.  Without any answer the gauge keeps its value. *)
Theorem gauge_shows_last_answer tr st :
  gauge (run tr st)
  = match last_answer tr st with
    | Some n => inject_Z n
    | None => gauge st
    end.
Proof.
  revert st. induction tr as [|ev tr IH]; intros st; [done|].
  rewrite run_cons, IH. simpl.
  destruct (last_answer tr (step ev st)); [done|].
  unfold gauge. rewrite gauge_step.
  destruct (answered_refresh ev st); [apply series_value_insert | done].
Qed.

End Gauge.

(** *** The request handlers *)

Section Handlers.
Local Open Scope Z_scope.

Lemma settle_step st p call k rest r :
  halted st = None ->
  take p (pending st) = Some ((call, k), rest) ->
  well_kinded call r = true ->
  step (EvSettle p r) st
  = run_callback (resume k r) (with_pending rest (next_promise st) st).
Proof. intros Hh Ht Hw. unfold step. by rewrite Hh, Ht, Hw. Qed.

Lemma lookup_alter_twice (f g : Exchange -> Exchange) rid x
    (m : gmap nat Exchange) :
  m !! rid = Some x -> alter f rid (alter g rid m) !! rid = Some (f (g x)).
Proof. intros Hx. by rewrite !lookup_alter_eq, Hx. Qed.

(** X6. A query that fails inside a request handler, at whichever await,
    ends the handler: the error is written to the console, the request is
    answered with status 500 and an error body, no further query is sent,
    and neither the gauge, the timers nor the process are touched. *)
Theorem failed_query_answers_500 st p call k rest e rid x :
  halted st = None ->
  take p (pending st) = Some ((call, k), rest) ->
  frame_request k = Some rid ->
  requests st !! rid = Some x ->
  let st' := step (EvSettle p (Rejected e)) st in
  pending st' = rest
  ∧ halted st' = None
  ∧ timers st' = timers st
  ∧ activeMemos st' = activeMemos st
  ∧ (exists msg, console st' = console st ++ [LogError msg e])
  ∧ (exists x' msg, requests st' !! rid = Some x'
                    ∧ res_statusCode x' = 500
                    ∧ res_body x' = Some (BError msg)
                    ∧ req_route x' = req_route x).
Proof.
  intros Hh Ht Hk Hx. cbv zeta.
  rewrite (settle_step st p call k rest (Rejected e) Hh Ht eq_refl).
  destruct k; try discriminate Hk; injection Hk as ->;
    (split; [reflexivity|]); (split; [exact Hh|]); (split; [reflexivity|]);
    (split; [reflexivity|]); (split; [by eexists|]);
    eexists _, _; (split; [cbn; by apply lookup_alter_twice|]); by repeat split.
Qed.

Lemma failed_query_answers_500_witness :
  let st := run [EvSettle 0 (Fulfilled VConnection);
                 EvSettle 1 (Fulfilled VPong);
                 EvSettle 2 (Fulfilled (VCount 3));
                 EvRequest 7 "GET" "/api/memo-stats" 1000;
                 EvRoute 7 GetMemoStats;
                 EvSettle 3 (Fulfilled (VCount 1))]
                (boot [] None) in
  let e := DriverError "ER_NO_SUCH_TABLE" in
  let x := {| req_method := "GET";
              req_path := "/api/memo-stats";
              req_route := Some "/api/memo-stats";
              finish_listener := Some 1000;
              res_statusCode := 200;
              res_body := None;
              res_finished := false |} in
  let st' := step (EvSettle 4 (Rejected e)) st in
  pending st' = []
  ∧ halted st' = None
  ∧ timers st' = timers st
  ∧ activeMemos st' = activeMemos st
  ∧ (exists msg, console st' = console st ++ [LogError msg e])
  ∧ (exists x' msg, requests st' !! 7%nat = Some x'
                    ∧ res_statusCode x' = 500
                    ∧ res_body x' = Some (BError msg)
                    ∧ req_route x' = req_route x).
Proof.
  intros st e x.
  apply (failed_query_answers_500 st 4%nat (Execute SqlCountActive)
           (KStatsTotal 7 (VCount 1)) [] e 7%nat x).
  - reflexivity.
  - vm_compute. reflexivity.
  - reflexivity.
  - vm_compute. reflexivity.
Defined.

(** X7. When the UPDATE of the accept endpoint affects no row, the request
    is answered 404 with 'Assignment not found', the not_found series of
    memo_operations_total goes up by one, and updateMemoMetrics is not
    called: no query is sent and the gauge keeps its value. *)
Theorem accept_without_rows_answers_404 st p rest rid a n x :
  halted st = None ->
  take p (pending st) = Some ((Execute (SqlAccept a), KAccept rid), rest) ->
  n <= 0 ->
  requests st !! rid = Some x ->
  let st' := step (EvSettle p (Fulfilled (VResult n))) st in
  pending st' = rest
  ∧ refreshes_in_flight st' = length (filter is_refresh rest)
  ∧ activeMemos st' = activeMemos st
  ∧ operations "accept_memo" "not_found" st'
    = (operations "accept_memo" "not_found" st + 1)%Q
  ∧ (exists x', requests st' !! rid = Some x'
                ∧ res_statusCode x' = 404
                ∧ res_body x' = Some (BError "Assignment not found")).
Proof.
  intros Hh Ht Hn Hx. cbv zeta.
  rewrite (settle_step st p _ _ rest (Fulfilled (VResult n)) Hh Ht eq_refl).
  unfold run_callback, resume, accept_resume, async, try_catch, bind, awaited, ret.
  unfold affectedRows_positive. apply Z.ltb_ge in Hn. rewrite Hn.
  split; [reflexivity|]. split; [reflexivity|]. split; [reflexivity|].
  split; [apply series_value_insert|].
  eexists. split; [cbn; by apply lookup_alter_twice|]. by split.
Qed.

Lemma accept_without_rows_answers_404_witness :
  let st := run [EvSettle 0 (Fulfilled VConnection);
                 EvSettle 1 (Fulfilled VPong);
                 EvSettle 2 (Fulfilled (VCount 3));
                 EvRequest 7 "PUT" "/api/assignments/99/accept" 1000;
                 EvRoute 7 (PutAccept "99")]
                (boot [] None) in
  let x := {| req_method := "PUT";
              req_path := "/api/assignments/99/accept";
              req_route := Some "/api/assignments/:assignmentId/accept";
              finish_listener := Some 1000;
              res_statusCode := 200;
              res_body := None;
              res_finished := false |} in
  let st' := step (EvSettle 3 (Fulfilled (VResult 0))) st in
  pending st' = []
  ∧ refreshes_in_flight st' = length (filter is_refresh [])
  ∧ activeMemos st' = activeMemos st
  ∧ operations "accept_memo" "not_found" st'
    = (operations "accept_memo" "not_found" st + 1)%Q
  ∧ (exists x', requests st' !! 7%nat = Some x'
                ∧ res_statusCode x' = 404
                ∧ res_body x' = Some (BError "Assignment not found")).
Proof.
  intros st x.
  apply (accept_without_rows_answers_404 st 3%nat [] 7%nat "99" 0 x).
  - reflexivity.
  - vm_compute. reflexivity.
  - lia.
  - vm_compute. reflexivity.
Defined.

(** The memos table has no status named active. *)
Lemma select_count_status_active memos : select_count_status "active" memos = 0.
Proof.
  unfold select_count_status.
  induction memos as [|m memos IH]; [done|].
  rewrite filter_cons. by destruct m as [i []].
Qed.

(** The query of the refresher, read through the status names. *)
Lemma select_count_status_sent memos :
  select_count_status "sent" memos = select_count_sent memos.
Proof.
  unfold select_count_status, select_count_sent. f_equal. f_equal.
  induction memos as [|m memos IH]; [done|].
  rewrite !filter_cons, IH. by destruct m as [i []].
Qed.

(** GET /api/memo-stats, await by await. *)
Lemma memo_stats_invoked st rid x pl :
  halted st = None ->
  requests st !! rid = Some x ->
  routable x = true ->
  pool st = Some pl ->
  step (EvRoute rid GetMemoStats) st
  = with_pending
      (pending st ++ [(next_promise st, (Execute SqlCountToday, KStatsToday rid))])
      (S (next_promise st))
      (snd (memoOperationsTotal_inc "get_stats" "attempt"
         (snd (dbConnectionsTotal_inc
            (with_requests
               (alter (set_route (Some "/api/memo-stats")) rid (requests st))
               st))))).
Proof.
  intros Hh Hx Hr Hp. unfold step. rewrite Hh, Hx, Hr.
  unfold run_callback, on_exchange, async, handler, memo_stats, on_pool.
  unfold try_catch, bind, gets, modify.
  simpl. rewrite Hp. reflexivity.
Qed.

Lemma memo_stats_today_fulfilled st p rest rid today pl :
  halted st = None ->
  take p (pending st) = Some ((Execute SqlCountToday, KStatsToday rid), rest) ->
  pool st = Some pl ->
  step (EvSettle p (Fulfilled (VCount today))) st
  = with_pending
      (rest ++ [(next_promise st,
                 (Execute SqlCountActive, KStatsTotal rid (VCount today)))])
      (S (next_promise st)) st.
Proof.
  intros Hh Ht Hp.
  rewrite (settle_step st p _ _ rest (Fulfilled (VCount today)) Hh Ht eq_refl).
  unfold run_callback, resume, async, memo_stats_today, on_pool, awaited.
  unfold try_catch, bind, gets, ret.
  simpl. rewrite Hp. reflexivity.
Qed.

Lemma memo_stats_total_fulfilled st p rest rid today total pl :
  halted st = None ->
  take p (pending st)
  = Some ((Execute SqlCountActive, KStatsTotal rid today), rest) ->
  pool st = Some pl ->
  step (EvSettle p (Fulfilled (VCount total))) st
  = with_pending
      (rest ++ [(next_promise st,
                 (Execute SqlWeeklyTrend, KStatsTrend rid today (VCount total)))])
      (S (next_promise st)) st.
Proof.
  intros Hh Ht Hp.
  rewrite (settle_step st p _ _ rest (Fulfilled (VCount total)) Hh Ht eq_refl).
  unfold run_callback, resume, async, memo_stats_total, on_pool, awaited.
  unfold try_catch, bind, gets, ret.
  simpl. rewrite Hp. reflexivity.
Qed.

Lemma memo_stats_trend_fulfilled st p rest rid today total trend :
  halted st = None ->
  take p (pending st)
  = Some ((Execute SqlWeeklyTrend,
           KStatsTrend rid (VCount today) (VCount total)), rest) ->
  step (EvSettle p (Fulfilled (VRows trend))) st
  = snd (res_json rid (BStats today total (VRows trend))
      (snd (memoOperationsTotal_inc "get_stats" "success"
         (with_pending rest (next_promise st) st)))).
Proof.
  intros Hh Ht.
  rewrite (settle_step st p _ _ rest (Fulfilled (VRows trend)) Hh Ht eq_refl). reflexivity.
Qed.

Lemma fresh_below st n :
  fresh st -> (next_promise st <= n)%nat ->
  Forall (fun q : nat * (DriverCall * Frame) => (fst q < S n)%nat) (pending st).
Proof.
  intros Hf Hn. eapply Forall_impl; [exact Hf|]. simpl. lia.
Qed.

(** X8. GET /api/memo-stats sends three queries one after the other: the
    count of the memos created today, then the count of the memos whose
    status is 'active', then the weekly trend, each sent when the one before
    is answered.  It answers the request with the two counts as the database
    gave them and the rows of the third.  The status column of the memos
    table has no value 'active': whatever the table holds, a database that
    answers the second query truthfully answers 0, and that is what the
    handler reports as totalMemos. *)
Theorem memo_stats_reports_no_active_memos st rid x pl memos today total trend :
  halted st = None ->
  fresh st ->
  pool st = Some pl ->
  requests st !! rid = Some x ->
  routable x = true ->
  let n := next_promise st in
  let st1 := step (EvRoute rid GetMemoStats) st in
  let st2 := step (EvSettle n (Fulfilled (VCount today))) st1 in
  let st3 := step (EvSettle (S n) (Fulfilled (VCount total))) st2 in
  let st4 := step (EvSettle (S (S n)) (Fulfilled (VRows trend))) st3 in
  pending st1 = pending st ++ [(n, (Execute SqlCountToday, KStatsToday rid))]
  ∧ pending st2
    = pending st
      ++ [(S n, (Execute SqlCountActive, KStatsTotal rid (VCount today)))]
  ∧ pending st3
    = pending st
      ++ [(S (S n), (Execute SqlWeeklyTrend,
                     KStatsTrend rid (VCount today) (VCount total)))]
  ∧ pending st4 = pending st
  ∧ halted st4 = None
  ∧ (exists x', requests st4 !! rid = Some x'
                ∧ req_route x' = Some "/api/memo-stats"
                ∧ res_statusCode x' = res_statusCode x
                ∧ res_body x' = Some (BStats today total (VRows trend)))
  ∧ (forall call k,
       pending st2 = pending st ++ [(S n, (call, k))] ->
       truthful memos call (VCount total) ->
       total = 0).
Proof.
  intros Hh Hf Hp Hx Hr. cbv zeta.
  rewrite (memo_stats_invoked st rid x pl Hh Hx Hr Hp).
  set (st1 := with_pending _ _ _).
  rewrite (memo_stats_today_fulfilled st1 (next_promise st) (pending st) rid
             today pl Hh (take_fresh _ _ _ Hf) Hp).
  set (st2 := with_pending _ _ st1).
  rewrite (memo_stats_total_fulfilled st2 (S (next_promise st)) (pending st) rid
             (VCount today) total pl Hh
             (take_fresh _ _ _ (fresh_below st _ Hf (le_n _))) Hp).
  set (st3 := with_pending _ _ st2).
  rewrite (memo_stats_trend_fulfilled st3 (S (S (next_promise st))) (pending st)
             rid today total trend Hh
             (take_fresh _ _ _
                (fresh_below st _ Hf (le_S _ _ (le_n _))))).
  do 5 (split; [done|]). split.
  - eexists. split; [cbn; by apply lookup_alter_twice|]. by repeat split.
  - intros call k Hq Ht. simpl in Hq.
    apply app_inv_head in Hq. injection Hq as <- _.
    simpl in Ht. rewrite select_count_status_active in Ht. congruence.
Qed.

Lemma memo_stats_reports_no_active_memos_witness :
  let st := run [EvSettle 0 (Fulfilled VConnection);
                 EvSettle 1 (Fulfilled VPong);
                 EvSettle 2 (Fulfilled (VCount 2));
                 EvRequest 7 "GET" "/api/memo-stats" 1000]
                (boot [] None) in
  let memos := [ {| memo_id := 1; memo_status := sent |};
                 {| memo_id := 2; memo_status := draft |};
                 {| memo_id := 3; memo_status := sent |} ] in
  let x1 := {| req_method := "GET";
               req_path := "/api/memo-stats";
               req_route := None;
               finish_listener := Some 1000;
               res_statusCode := 200;
               res_body := None;
               res_finished := false |} in
  let total := select_count_status "active" memos in
  let trend := ["2026-11-03: 1"] in
  let n := next_promise st in
  let st1 := step (EvRoute 7 GetMemoStats) st in
  let st2 := step (EvSettle n (Fulfilled (VCount 1))) st1 in
  let st3 := step (EvSettle (S n) (Fulfilled (VCount total))) st2 in
  let st4 := step (EvSettle (S (S n)) (Fulfilled (VRows trend))) st3 in
  pending st1 = pending st ++ [(n, (Execute SqlCountToday, KStatsToday 7))]
  ∧ pending st2
    = pending st
      ++ [(S n, (Execute SqlCountActive, KStatsTotal 7 (VCount 1)))]
  ∧ pending st3
    = pending st
      ++ [(S (S n), (Execute SqlWeeklyTrend,
                     KStatsTrend 7 (VCount 1) (VCount total)))]
  ∧ pending st4 = pending st
  ∧ halted st4 = None
  ∧ (exists x', requests st4 !! 7%nat = Some x'
                ∧ req_route x' = Some "/api/memo-stats"
                ∧ res_statusCode x' = res_statusCode x1
                ∧ res_body x' = Some (BStats 1 total (VRows trend)))
  ∧ (forall call k,
       pending st2 = pending st ++ [(S n, (call, k))] ->
       truthful memos call (VCount total) ->
       total = 0).
Proof.
  intros st memos x1 total trend.
  apply (memo_stats_reports_no_active_memos st 7%nat x1 dbConfig memos 1 total
           trend).
  - reflexivity.
  - vm_compute. constructor.
  - reflexivity.
  - vm_compute. reflexivity.
  - reflexivity.
Defined.

End Handlers.

(** *** The route label of dispatched requests *)

Section Routes.

Variables (rid : nat) (pattern : string).

Lemma keeps_routed_refl st : keeps_routed rid pattern st st.
Proof. by intros H. Qed.

Lemma keeps_routed_trans a b c :
  keeps_routed rid pattern a b -> keeps_routed rid pattern b c ->
  keeps_routed rid pattern a c.
Proof. unfold keeps_routed. auto. Qed.

Lemma keeps_routed_on_exchange rid' f :
  (forall x, req_route (f x) = req_route x) ->
  respects (keeps_routed rid pattern) (on_exchange rid' f).
Proof.
  intros Hf st (x & Hx & Hr). unfold routed. simpl.
  destruct (decide (rid' = rid)) as [->|Hne].
  - exists (f x). rewrite lookup_alter_eq, Hx. simpl. by rewrite Hf.
  - exists x. by rewrite lookup_alter_ne.
Qed.

Lemma keeps_routed_elsewhere rid' f :
  rid' <> rid -> respects (keeps_routed rid pattern) (on_exchange rid' f).
Proof.
  intros Hne st (x & Hx & Hr). exists x. simpl. by rewrite lookup_alter_ne.
Qed.

Lemma keeps_routed_new_exchange st rid' method path :
  requests st !! rid' = None ->
  keeps_routed rid pattern st
    (with_requests (<[rid' := new_exchange method path]> (requests st)) st).
Proof.
  intros Hnone (x & Hx & H). exists x. simpl.
  rewrite lookup_insert_ne; [done | congruence].
Qed.

Ltac keeps_routed_tac :=
  first [ exact keeps_routed_refl | exact keeps_routed_trans
        | exact keeps_routed_new_exchange
        | intros; apply keeps_routed_on_exchange; by intros []
        | intros; try intros ?; hnf; done ].

(** Matching a request that is routed already is refused. *)
Lemma routed_not_routable st x :
  routed rid pattern st -> requests st !! rid = Some x -> routable x = false.
Proof.
  intros (x' & Hx' & Hr) Hx. rewrite Hx in Hx'. injection Hx' as <-.
  unfold routable. by rewrite Hr.
Qed.

(** The route of a request, once matched, is never changed. *)
Lemma routed_step ev st :
  routed rid pattern st -> routed rid pattern (step ev st).
Proof.
  intros Hr. destruct ev.
  - revert Hr. change (keeps_routed rid pattern st (step (EvSettle p r) st)).
    apply (respects_step_settle (keeps_routed rid pattern)); keeps_routed_tac.
  - revert Hr.
    change (keeps_routed rid pattern st (step (EvTimer i createPool_raises) st)).
    apply (respects_step_timer (keeps_routed rid pattern)); keeps_routed_tac.
  - revert Hr.
    change (keeps_routed rid pattern st (step (EvRequest rid0 method path now) st)).
    apply (respects_step_request (keeps_routed rid pattern)); keeps_routed_tac.
  - unfold step. destruct (halted st); [done|].
    destruct (requests st !! rid0) as [x|] eqn:Hx; [|done].
    destruct (routable x) eqn:Hroutable; [|done].
    assert (Hne : rid0 <> rid).
    { intros ->. by rewrite (routed_not_routable st x Hr Hx) in Hroutable. }
    revert Hr. apply respects_run_callback;
      [exact keeps_routed_trans | keeps_routed_tac |].
    apply respects_bind;
      [exact keeps_routed_trans | by apply keeps_routed_elsewhere | intros _].
    apply respects_async_floating; try keeps_routed_tac.
    apply respects_handler; keeps_routed_tac.
  - unfold step. destruct (halted st); [done|].
    destruct (requests st !! rid0) as [x|] eqn:Hx; [|done].
    destruct (routable x) eqn:Hroutable; [|done].
    assert (Hne : rid0 <> rid).
    { intros ->. by rewrite (routed_not_routable st x Hr Hx) in Hroutable. }
    revert Hr. apply respects_run_callback;
      [exact keeps_routed_trans | keeps_routed_tac |].
    repeat (apply respects_bind;
            [exact keeps_routed_trans | by apply keeps_routed_elsewhere | intros _]).
    by apply keeps_routed_elsewhere.
  - revert Hr.
    change (keeps_routed rid pattern st (step (EvFinish rid0 now raised) st)).
    apply (respects_step_finish (keeps_routed rid pattern)); keeps_routed_tac.
Qed.

Lemma routed_run tr st :
  routed rid pattern st -> routed rid pattern (run tr st).
Proof.
  revert st. induction tr as [|ev tr IH]; intros st H; [done|].
  rewrite run_cons. by apply IH, routed_step.
Qed.

End Routes.

Lemma route_path_registered h : In (route_path h) routes.
Proof. destruct h; simpl; tauto. Qed.

(** The router hands the request to a handler. *)
Lemma invoked_routed rid h st :
  invokes (EvRoute rid h) st = true ->
  routed rid (route_path h) (step (EvRoute rid h) st).
Proof.
  unfold invokes, step. destruct (halted st); [done|].
  destruct (requests st !! rid) as [x|] eqn:Hx; [|done]. intros ->.
  apply (respects_run_callback (keeps_routed rid (route_path h))
           (keeps_routed_trans rid (route_path h))
           (fun e s H => H)
           (async Floating (handler h rid))
           (with_requests (alter (set_route (Some (route_path h))) rid (requests st)) st)).
  - apply respects_async_floating;
      [ exact (keeps_routed_refl rid (route_path h))
      | exact (keeps_routed_trans rid (route_path h))
      | by intros e s H |].
    apply respects_handler;
      first [ exact (keeps_routed_refl rid (route_path h))
            | exact (keeps_routed_trans rid (route_path h))
            | intros; apply keeps_routed_on_exchange; by intros []
            | intros; try intros ?; hnf; done ].
  - exists (set_route (Some (route_path h)) x). simpl.
    by rewrite lookup_alter_eq, Hx.
Qed.

(** X9. Every request the router hands to an /api handler is labelled by
    the pattern of that handler's route, not by its path: whatever happens
    afterwards, the route under which its duration is observed is the
    pattern, one of the routes the application registers, so all the
    requests to one endpoint (any user, any assignment) share one histogram
    series per method and status. *)
Theorem dispatched_request_labelled_by_pattern st rid h tr x :
  invokes (EvRoute rid h) st = true ->
  requests (run tr (step (EvRoute rid h) st)) !! rid = Some x ->
  req_route x = Some (route_path h)
  ∧ route_label x = route_path h
  ∧ In (route_path h) routes.
Proof.
  intros Hi Hx.
  destruct (routed_run rid (route_path h) tr _ (invoked_routed rid h st Hi))
    as (x' & Hx' & Hr).
  rewrite Hx in Hx'. injection Hx' as <-.
  split; [done|]. split; [|apply route_path_registered].
  unfold route_label. rewrite Hr.
  by rewrite (routes_truthy _ (route_path_registered h)).
Qed.

Lemma dispatched_request_labelled_by_pattern_witness :
  let st := run [EvSettle 0 (Fulfilled VConnection);
                 EvSettle 1 (Fulfilled VPong);
                 EvSettle 2 (Fulfilled (VCount 3));
                 EvRequest 7 "GET" "/api/users/42/notifications" 1000]
                (boot [] None) in
  let tr := [EvSettle 3 (Fulfilled (VRows ["n1"; "n2"]))] in
  let x := {| req_method := "GET";
              req_path := "/api/users/42/notifications";
              req_route := Some "/api/users/:userId/notifications";
              finish_listener := Some 1000%Z;
              res_statusCode := 200;
              res_body := Some (BRows (VRows ["n1"; "n2"]));
              res_finished := false |} in
  req_route x = Some (route_path (GetNotifications "42"))
  ∧ route_label x = route_path (GetNotifications "42")
  ∧ In (route_path (GetNotifications "42")) routes.
Proof.
  intros st tr x.
  apply (dispatched_request_labelled_by_pattern st 7%nat (GetNotifications "42")
           tr x).
  - vm_compute. reflexivity.
  - vm_compute. reflexivity.
Defined.

(** *** Retrying the connection *)

Section Retry.

(** The retry timeout fires: initializeDatabase runs again, creates the
    pool anew and asks it for a connection. *)
Lemma retry_fires st before armed :
  halted st = None ->
  timers st = before ++ retry_timer :: armed ->
  step (EvTimer (length before) None) st
  = with_pending
      (pending st
       ++ [(next_promise st, (GetConnection, KInitGetConnection Floating))])
      (S (next_promise st))
      (with_console (console st ++ [LogInfo "Database connection pool created"])
         (with_pool (Some dbConfig) (with_timers (before ++ armed) st))).
Proof.
  intros Hh Ht. unfold step. rewrite Hh, Ht, list_lookup_middle by done.
  unfold retry_timer. by rewrite delete_middle.
Qed.

Lemma retry_connected st p rest :
  halted st = None ->
  take p (pending st)
  = Some ((GetConnection, KInitGetConnection Floating), rest) ->
  step (EvSettle p (Fulfilled VConnection)) st
  = with_pending (rest ++ [(next_promise st, (Ping, KInitPing Floating))])
                 (S (next_promise st)) st.
Proof. intros Hh Ht. unfold step. by rewrite Hh, Ht. Qed.

Lemma retry_pinged st p rest pl :
  halted st = None ->
  take p (pending st) = Some ((Ping, KInitPing Floating), rest) ->
  pool st = Some pl ->
  step (EvSettle p (Fulfilled VPong)) st
  = with_pending (rest ++ [(next_promise st, refresh)]) (S (next_promise st))
      (with_console (console st ++ [LogInfo "Database connection successful"])
                    st).
Proof.
  intros Hh Ht Hp. unfold step. rewrite Hh, Ht. simpl well_kinded. cbv iota.
  unfold run_callback, resume, async, initializeDatabase_pinged, awaited.
  unfold async, updateMemoMetrics, on_pool.
  unfold try_catch, bind, gets, ret, console_log, modify.
  simpl. rewrite Hp. reflexivity.
Qed.

(** A connection attempt fails at the connection or at the ping. *)
Lemma attempt_rejected st p call k rest e :
  halted st = None ->
  take p (pending st) = Some ((call, k), rest) ->
  is_attempt (p, (call, k)) = true ->
  exists st0,
    step (EvSettle p (Rejected e)) st
    = with_timers (timers st ++ retry_timer :: armed_by (p, (call, k))) st0
    ∧ pending st0 = rest ∧ next_promise st0 = next_promise st
    ∧ halted st0 = None ∧ pool st0 = pool st
    ∧ console st0 = console st ++ [LogError "Database connection error:" e].
Proof.
  intros Hh Ht Hk. unfold step. rewrite Hh, Ht. simpl well_kinded. cbv iota.
  destruct k as [[]|[]| | | | | | | |]; try discriminate Hk; cbn.
  - eexists. rewrite <- app_assoc. simpl.
    split; [reflexivity|]. by repeat split.
  - eexists. split; [reflexivity|]. by repeat split.
  - eexists. rewrite <- app_assoc. simpl.
    split; [reflexivity|]. by repeat split.
  - eexists. split; [reflexivity|]. by repeat split.
Qed.

Lemma retries_armed_by p : length (filter is_timeout (armed_by p)) = 0%nat.
Proof. unfold armed_by. by destruct (is_main p). Qed.

Lemma retries_app (l l' : list Timer) :
  length (filter is_timeout (l ++ l'))
  = (length (filter is_timeout l) + length (filter is_timeout l'))%nat.
Proof. by rewrite filter_app, length_app. Qed.

(** X10. The retry cycle.  When a connection attempt of initializeDatabase
    fails, at start-up or in a retry, at getConnection or at the ping, the
    error is logged and exactly one retry timeout of 5000 ms is armed; the
    only other timer armed is the refresh interval, by the start-up chain
    when the failed attempt was the start-up call.  When the retry fires it
    is gone, initializeDatabase creates the pool anew and asks for a
    connection; and when connection and ping then succeed, updateMemoMetrics
    is called and no retry is armed: the armed retries are one more than
    before after the failure, and as many as before from the firing on, which
    is none in a state where connection attempts do not overlap. *)
Theorem failed_attempt_is_retried st p call k rest e :
  halted st = None ->
  fresh st ->
  take p (pending st) = Some ((call, k), rest) ->
  is_attempt (p, (call, k)) = true ->
  let n := next_promise st in
  let armed := armed_by (p, (call, k)) in
  let failed := step (EvSettle p (Rejected e)) st in
  let retried := step (EvTimer (length (timers st)) None) failed in
  let connected :=
    run [EvSettle n (Fulfilled VConnection); EvSettle (S n) (Fulfilled VPong)]
        retried in
  pending failed = rest
  ∧ console failed = console st ++ [LogError "Database connection error:" e]
  ∧ timers failed = timers st ++ retry_timer :: armed
  ∧ timers retried = timers st ++ armed
  ∧ timers connected = timers st ++ armed
  ∧ retries failed = S (retries st)
  ∧ retries retried = retries st
  ∧ retries connected = retries st
  ∧ (attempts st + retries st <= 1 ->
     retries failed = 1 ∧ retries retried = 0 ∧ retries connected = 0)
  ∧ pool retried = Some dbConfig
  ∧ pending retried = rest ++ [(n, (GetConnection, KInitGetConnection Floating))]
  ∧ pending connected = rest ++ [(S (S n), refresh)]
  ∧ halted connected = None.
Proof.
  intros Hh Hf Ht Hk. cbv zeta.
  destruct (attempt_rejected st p call k rest e Hh Ht Hk)
    as (st0 & -> & Hp0 & Hn0 & Hh0 & Hpool0 & Hc0).
  assert (Hrest : Forall (fun q : nat * (DriverCall * Frame) =>
                            fst q < next_promise st) rest).
  { unfold fresh in Hf. rewrite (take_perm _ _ _ _ Ht) in Hf. by inversion Hf. }
  assert (Hone : 1 <= attempts st).
  { unfold attempts. rewrite (take_count is_attempt _ _ _ _ Ht), Hk. lia. }
  set (armed := armed_by (p, (call, k))).
  rewrite (retry_fires (with_timers (timers st ++ retry_timer :: armed) st0)
             (timers st) armed Hh0 eq_refl).
  rewrite !run_cons. simpl pending. simpl next_promise. rewrite Hp0, Hn0.
  set (retried := with_pending _ _ _).
  rewrite (retry_connected retried (next_promise st) rest Hh0
             (take_fresh _ _ _ Hrest)).
  set (connecting := with_pending _ _ retried).
  rewrite (retry_pinged connecting (S (next_promise st)) rest dbConfig Hh0
             (take_fresh _ _ _
                (Forall_impl _ _ _ Hrest (fun q H => Nat.lt_lt_succ_r _ _ H)))
             eq_refl).
  assert (Hfailed : length (filter is_timeout (timers st ++ retry_timer :: armed))
                    = S (retries st)).
  { rewrite retries_app. unfold retry_timer. rewrite filter_cons. simpl.
    unfold armed. rewrite retries_armed_by. unfold retries. lia. }
  assert (Hafter : length (filter is_timeout (timers st ++ armed)) = retries st).
  { rewrite retries_app. unfold armed. rewrite retries_armed_by.
    unfold retries. lia. }
  do 5 (split; [done|]).
  split; [exact Hfailed|]. split; [exact Hafter|]. split; [exact Hafter|].
  split.
  { intros Hle. unfold retries at 1 2 3. simpl timers.
    rewrite Hfailed, Hafter. lia. }
  by repeat split.
Qed.

Lemma failed_attempt_is_retried_witness :
  let st := boot [] None in
  let e := DriverError "ECONNREFUSED" in
  let n := next_promise st in
  let armed := armed_by (0%nat, (GetConnection, KInitGetConnection Main)) in
  let failed := step (EvSettle 0 (Rejected e)) st in
  let retried := step (EvTimer (length (timers st)) None) failed in
  let connected :=
    run [EvSettle n (Fulfilled VConnection); EvSettle (S n) (Fulfilled VPong)]
        retried in
  pending failed = []
  ∧ console failed = console st ++ [LogError "Database connection error:" e]
  ∧ timers failed = timers st ++ retry_timer :: armed
  ∧ timers retried = timers st ++ armed
  ∧ timers connected = timers st ++ armed
  ∧ retries failed = S (retries st)
  ∧ retries retried = retries st
  ∧ retries connected = retries st
  ∧ (attempts st + retries st <= 1 ->
     retries failed = 1 ∧ retries retried = 0 ∧ retries connected = 0)
  ∧ pool retried = Some dbConfig
  ∧ pending retried = [] ++ [(n, (GetConnection, KInitGetConnection Floating))]
  ∧ pending connected = [] ++ [(S (S n), refresh)]
  ∧ halted connected = None.
Proof.
  intros st e.
  apply (failed_attempt_is_retried st 0 GetConnection (KInitGetConnection Main)
           [] e).
  - reflexivity.
  - vm_compute. repeat constructor.
  - reflexivity.
  - reflexivity.
Defined.

End Retry.

(** *** The bookkeeping of memo_operations_total *)

Section Bookkeeping.

(** The label sets of memo_operations_total differ when an operation or a
    status differs. *)

Lemma labels_lookup a b :
  labels ["operation"; "status"] [a; b] !! "operation" = Some a
  ∧ labels ["operation"; "status"] [a; b] !! "status" = Some b.
Proof.
  unfold labels. simpl. split.
  - by rewrite lookup_insert_eq.
  - rewrite lookup_insert_ne by done. by rewrite lookup_insert_eq.
Qed.

Lemma labels_eqb a b c d :
  labels ["operation"; "status"] [a; b] = labels ["operation"; "status"] [c; d]
  <-> String.eqb a c && String.eqb b d = true.
Proof.
  rewrite andb_true_iff, !String.eqb_eq. split.
  - intros H. destruct (labels_lookup a b) as [Ha Hb].
    rewrite H in Ha, Hb. destruct (labels_lookup c d) as [Hc Hd].
    split; congruence.
  - by intros [-> ->].
Qed.

Lemma series_value_labels (m : gmap LabelSet Q) a b c d v :
  series_value (<[labels ["operation"; "status"] [a; b] := v]> m)
               (labels ["operation"; "status"] [c; d])
  = if String.eqb a c && String.eqb b d then v
    else series_value m (labels ["operation"; "status"] [c; d]).
Proof.
  destruct (String.eqb a c && String.eqb b d) eqn:He.
  - apply labels_eqb in He. rewrite He. apply series_value_insert.
  - apply series_value_insert_ne. intros H. apply labels_eqb in H. congruence.
Qed.

(** Code that leaves memo_operations_total and the handlers' frames alone. *)
Lemma same_requests_refl st : same_requests st st.
Proof. by split. Qed.

Lemma same_requests_trans a b c :
  same_requests a b -> same_requests b c -> same_requests a c.
Proof. intros [H1 H2] [H3 H4]. split; congruence. Qed.

Lemma same_requests_await call k :
  frame_class k <> RequestFrame -> respects same_requests (await call k).
Proof.
  intros Hk st. split; [done|]. simpl. rewrite filter_app, filter_cons.
  assert (is_request (next_promise st, (call, k)) = false) as ->
    by (unfold is_request; simpl; by destruct (frame_class k)).
  simpl. by rewrite filter_nil, app_nil_r.
Qed.

Lemma take_filter (f : nat * (DriverCall * Frame) -> bool) p l cf rest :
  take p l = Some (cf, rest) ->
  f (p, cf) = false -> filter f rest = filter f l.
Proof.
  revert rest. induction l as [|[q cf'] l IH]; intros rest; simpl; [done|].
  destruct (Nat.eqb_spec p q) as [->|Hne].
  - intros [= -> ->] Hf. rewrite filter_cons. by rewrite Hf.
  - destruct (take p l) as [[cf'' rest']|]; [|done].
    intros [= -> <-] Hf. rewrite !filter_cons. by rewrite (IH rest' eq_refl Hf).
Qed.

Lemma take_Forall (P : nat * (DriverCall * Frame) -> Prop) p l cf rest :
  take p l = Some (cf, rest) -> Forall P l -> P (p, cf) ∧ Forall P rest.
Proof.
  revert rest. induction l as [|[q cf'] l IH]; intros rest; simpl; [done|].
  destruct (Nat.eqb_spec p q) as [->|Hne].
  - intros [= -> ->] H. by inversion H.
  - destruct (take p l) as [[cf'' rest']|]; [|done].
    intros [= -> <-] H. inversion H as [|? ? Hq Hl]; subst.
    destruct (IH rest' eq_refl Hl). split; [done|]. by constructor.
Qed.

Lemma works_on_request op (l : list (nat * (DriverCall * Frame))) :
  filter (works_on op) (filter is_request l) = filter (works_on op) l.
Proof.
  induction l as [|[q [call k]] l IH]; [done|].
  rewrite !filter_cons.
  destruct k as [[]|[]| | | | | | | |]; simpl; rewrite ?filter_cons; simpl;
    rewrite ?IH; try done.
Qed.

Lemma coherent_request (l : list (nat * (DriverCall * Frame))) :
  Forall coherent (filter is_request l) <-> Forall coherent l.
Proof.
  induction l as [|[q [call k]] l IH]; [done|].
  rewrite filter_cons.
  destruct k as [[]|[]| | | | | | | |]; simpl; rewrite ?Forall_cons, IH;
    try done; split; try tauto; intros; split; try tauto; done.
Qed.

Lemma same_requests_kept op st st' :
  same_requests st st' ->
  balanced op st ∧ Forall coherent (pending st) ->
  balanced op st' ∧ Forall coherent (pending st').
Proof.
  intros [Hm Hp] [Hb Hc]. split.
  - unfold balanced, operations, in_progress in *.
    rewrite Hm, <- works_on_request, Hp, works_on_request. exact Hb.
  - apply coherent_request. rewrite Hp. by apply coherent_request.
Qed.

Ltac same_requests_tac :=
  first [ exact same_requests_refl | exact same_requests_trans
        | exact same_requests_await
        | discriminate
        | intros; try intros ?; hnf; split; reflexivity ].

Lemma same_requests_settle p r st call k rest :
  take p (pending st) = Some ((call, k), rest) ->
  frame_class k <> RequestFrame ->
  same_requests st
    (run_callback (resume k r) (with_pending rest (next_promise st) st)).
Proof.
  intros Ht Hk. apply same_requests_trans with (with_pending rest (next_promise st) st).
  - split; [done|]. simpl. apply (take_filter _ _ _ _ _ Ht).
    unfold is_request. simpl. by destruct (frame_class k).
  - apply quiet_run_callback; [apply resume_never_throws|].
    destruct (frame_class k) eqn:Hc; [| | |done].
    + apply (quiet_startup_resume same_requests (fun c => c <> RequestFrame));
        first [exact Hc | same_requests_tac].
    + apply (quiet_retry_resume same_requests (fun c => c <> RequestFrame));
        first [exact Hc | same_requests_tac].
    + destruct k as [[]|[]| | | | | | | |]; try discriminate Hc.
      apply (quiet_refresh_resume same_requests); same_requests_tac.
Qed.

(** The segments of the handlers, run on a symbolic state. *)
Ltac run_code :=
  unfold run_callback, resume, handler, async, on_exchange,
    memo_stats, memo_stats_today, memo_stats_total, memo_stats_trend,
    memo_stats_catch, memos, memos_resume, memos_catch,
    assignments, assignments_resume, assignments_catch,
    accept, accept_resume, accept_catch,
    notifications, notifications_resume, notifications_catch;
  unfold async, updateMemoMetrics, updateMemoMetrics_catch;
  unfold on_pool, awaited, rows0_count, res_status, res_json, on_exchange,
    console_error, try_catch, bind, gets, modify, throw, ret.

Lemma in_progress_snoc op (l : list (nat * (DriverCall * Frame))) n call k :
  length (filter (works_on op) (l ++ [(n, (call, k))]))
  = (length (filter (works_on op) l)
     + match frame_operation k with
       | Some op' => if String.eqb op' op then 1 else 0
       | None => 0
       end)%nat.
Proof.
  rewrite count_snoc. f_equal. unfold works_on. simpl.
  by destruct (frame_operation k).
Qed.

Lemma in_progress_take op p (l : list (nat * (DriverCall * Frame))) call k rest :
  take p l = Some ((call, k), rest) ->
  length (filter (works_on op) l)
  = (match frame_operation k with
     | Some op' => if String.eqb op' op then 1 else 0
     | None => 0
     end + length (filter (works_on op) rest))%nat.
Proof.
  intros Ht. rewrite (take_count (works_on op) _ _ _ _ Ht). f_equal.
  unfold works_on. simpl. by destruct (frame_operation k).
Qed.

Ltac balance op Hb :=
  rewrite ?series_value_labels, ?in_progress_snoc;
  cbn [frame_operation];
  repeat match goal with
         | |- context [String.eqb ?s op] =>
             let E := fresh "E" in
             destruct (String.eqb s op) eqn:E;
             [apply String.eqb_eq in E; subst op|]
         | _ => match type of Hb with
                | context [String.eqb ?s op] =>
                    let E := fresh "E" in
                    destruct (String.eqb s op) eqn:E;
                    [apply String.eqb_eq in E; subst op|]
                end
         | |- context [String.eqb ?a ?b] =>
             let v := eval vm_compute in (String.eqb a b) in
             change (String.eqb a b) with v
         end;
  cbn [andb];
  rewrite ?Nat2Z.inj_add, ?inject_Z_plus;
  rewrite ?Nat2Z.inj_add, ?inject_Z_plus in Hb;
  change (inject_Z (Z.of_nat 1)) with 1%Q in Hb |- *;
  change (inject_Z (Z.of_nat 0)) with 0%Q in Hb |- *;
  lra.

Ltac coherence :=
  rewrite ?Forall_app, ?Forall_singleton;
  repeat match goal with |- _ ∧ _ => split end;
  first [assumption | done].

Lemma balanced_route op rid h st :
  balanced op st ∧ Forall coherent (pending st) ->
  balanced op (step (EvRoute rid h) st)
  ∧ Forall coherent (pending (step (EvRoute rid h) st)).
Proof.
  intros [Hb Hc]. unfold step. destruct (halted st); [done|].
  destruct (requests st !! rid) as [x|]; [|done].
  destruct (routable x); [|done].
  unfold balanced, operations, in_progress in *.
  destruct h; run_code; simpl; destruct (pool st); simpl;
    (split; [ | rewrite ?Forall_app, ?Forall_singleton; by repeat split]).
  all: balance op Hb.
Qed.

Lemma balanced_settle_request op p r st call k rest :
  take p (pending st) = Some ((call, k), rest) ->
  well_kinded call r = true ->
  frame_class k = RequestFrame ->
  balanced op st ∧ Forall coherent (pending st) ->
  let st' := run_callback (resume k r) (with_pending rest (next_promise st) st) in
  balanced op st' ∧ Forall coherent (pending st').
Proof.
  intros Ht Hw Hk [Hb Hc]. cbv zeta.
  destruct (take_Forall _ _ _ _ _ Ht Hc) as [Hk' Hrest].
  unfold balanced, operations, in_progress in *.
  rewrite (in_progress_take op _ _ _ _ _ Ht) in Hb.
  destruct k as [[]|[]| | | | | | | |]; try discriminate Hk;
    cbn [frame_operation] in Hb.
  - destruct call as [| |[]]; try (simpl in Hk'; contradiction).
    destruct r as [[]|e]; try discriminate Hw;
      run_code; simpl; destruct (pool st); simpl;
      (split; [balance op Hb | coherence]).
  - destruct call as [| |[]]; try (simpl in Hk'; contradiction).
    destruct todayMemos; try (simpl in Hk'; contradiction).
    destruct r as [[]|e]; try discriminate Hw;
      run_code; simpl; destruct (pool st); simpl;
      (split; [balance op Hb | coherence]).
  - destruct todayMemos; try (simpl in Hk'; contradiction).
    destruct totalMemos; try (simpl in Hk'; contradiction).
    destruct r as [v|e]; run_code; simpl; (split; [balance op Hb | coherence]).
  - destruct r as [v|e]; run_code; simpl; (split; [balance op Hb | coherence]).
  - destruct r as [v|e]; run_code; simpl; (split; [balance op Hb | coherence]).
  - destruct r as [v|e]; run_code; simpl;
      [destruct (affectedRows_positive v); simpl; [destruct (pool st); simpl|]|];
      (split; [balance op Hb | coherence]).
  - destruct r as [v|e]; run_code; simpl; (split; [balance op Hb | coherence]).
Qed.

(** The balance and the coherence of the memo-stats frames are kept by
    every event. *)
Lemma bookkeeping_step op ev st :
  balanced op st ∧ Forall coherent (pending st) ->
  balanced op (step ev st) ∧ Forall coherent (pending (step ev st)).
Proof.
  intros H. destruct ev.
  - unfold step. destruct (halted st); [done|].
    destruct (take p (pending st)) as [[[call k] rest]|] eqn:Ht; [|done].
    destruct (well_kinded call r) eqn:Hw; [|done].
    destruct (frame_class k) eqn:Hk;
      [| | |by apply (balanced_settle_request op p r st call k rest)];
      (apply (same_requests_kept op st);
       [apply (same_requests_settle p r st call k rest Ht); congruence | done]).
  - apply (same_requests_kept op st); [|done].
    apply (quiet_step_timer same_requests (fun c => c <> RequestFrame));
      same_requests_tac.
  - apply (same_requests_kept op st); [|done].
    apply (quiet_step_request same_requests); same_requests_tac.
  - by apply balanced_route.
  - apply (same_requests_kept op st); [|done].
    apply (quiet_step_respond same_requests); same_requests_tac.
  - apply (same_requests_kept op st); [|done].
    apply (respects_step_finish same_requests); same_requests_tac.
Qed.

Lemma bookkeeping_boot op bounds raises :
  balanced op (boot bounds raises)
  ∧ Forall coherent (pending (boot bounds raises)).
Proof.
  assert (Hm : memoOperationsTotal (boot bounds raises) = ∅)
    by (by destruct raises).
  assert (Hp : pending (boot bounds raises) = []
               ∨ pending (boot bounds raises)
                 = [(0, (GetConnection, KInitGetConnection Main))])
    by (destruct raises; [by left | by right]).
  unfold balanced, operations, in_progress. rewrite Hm.
  unfold series_value. rewrite !lookup_empty. simpl.
  destruct Hp as [-> | ->]; (split; [done | by repeat constructor]).
Qed.

(** X11. The bookkeeping of memo_operations_total: in every state the
    application can reach, and for every operation label, the number of
    attempts counted equals the successes, errors and not_founds counted
    plus the handlers of that operation still awaiting a query.  For
    /api/memo-stats this rests on the driver answering a count query with
    the row of a count, so that reading [todayMemos[0].count] after the
    success has been counted does not throw into the catch block. *)
Theorem operations_are_accounted_for op bounds raises tr :
  let st := run tr (boot bounds raises) in
  (operations op "attempt" st
   == operations op "success" st + operations op "error" st
      + operations op "not_found" st
      + inject_Z (Z.of_nat (in_progress op st)))%Q.
Proof.
  cbv zeta. generalize (bookkeeping_boot op bounds raises).
  generalize (boot bounds raises).
  induction tr as [|ev tr IH]; intros st H; [apply H|].
  rewrite run_cons. by apply IH, bookkeeping_step.
Qed.

End Bookkeeping.
